(** * Metadata maintenance of the spairkflow-k8s Airflow plugins

    A shallow embedding of
    - [plugins/utils/miscellaneous.py] ([get_parsed_schema_type]) and
    - [plugins/task_generators/metadata_maintenance.py]
      ([print_configuration_function], [build_query], [print_query],
      [cleanup_function] and the task wiring at the end of the module),
    together with the properties of the retention logic that the
    specification states about them. *)

From Stdlib Require Import ZArith Lia List Bool Ascii String.
From stdpp Require Import base option list gmap strings.
Import ListNotations.

Local Open Scope string_scope.
Local Open Scope Z_scope.

(* ===================================================================== *)
(** * 1. Schema-type mapping: [plugins/utils/miscellaneous.py]            *)
(* ===================================================================== *)

Module SchemaType.

(** [s.startswith(key)] on Python strings. *)
Fixpoint startswith (key s : string) : bool :=
  match key, s with
  | EmptyString, _ => true
  | String _ _, EmptyString => false
  | String a key', String b s' =>
      if Ascii.eqb a b then startswith key' s' else false
  end.

(** Python's [key in s] on strings: [key] occurs at some offset of [s].
    The comparison is character by character, hence case-sensitive. *)
Fixpoint contains (key s : string) : bool :=
  startswith key s ||
  match s with
  | EmptyString => false
  | String _ s' => contains key s'
  end.

(** The dictionary literal [type] of [get_parsed_schema_type]; a Python
    [dict] iterates in insertion order, so the table is an ordered list
    of items. *)
Definition type : list (string * string) :=
  [ ("datetime",  "TIMESTAMP");
    ("timestamp", "TIMESTAMP");
    ("bool",      "BOOLEAN");
    ("int",       "INTEGER");
    ("float",     "FLOAT");
    ("numeric",   "FLOAT");
    ("double",    "FLOAT");
    ("decimal",   "FLOAT");
    ("time",      "TIME");
    ("date",      "DATE") ].

(** The loop [for key, value in type.items(): if key in schema_type:
    return value]; [None] when the loop runs to its end. *)
Fixpoint for_items (items : list (string * string)) (schema_type : string)
  : option string :=
  match items with
  | [] => None
  | (key, value) :: items' =>
      if contains key schema_type then Some value
      else for_items items' schema_type
  end.

Definition get_parsed_schema_type (schema_type : string) : string :=
  match for_items type schema_type with
  | Some value => value
  | None => "STRING"
  end.

(** What "occurs as a substring" means, independently of the code. *)
Definition occurs_in (key s : string) : Prop :=
  exists pre post : string, s = (pre ++ key ++ post)%string.

(** ASCII lower-casing, used only to talk about inputs that hold a key in
    another letter case. *)
Definition lower_ascii (c : ascii) : ascii :=
  let n := nat_of_ascii c in
  if (Nat.leb 65 n && Nat.leb n 90)%bool then ascii_of_nat (n + 32) else c.

Fixpoint lower (s : string) : string :=
  match s with
  | EmptyString => EmptyString
  | String c s' => String (lower_ascii c) (lower s')
  end.

End SchemaType.

(* ===================================================================== *)
(** * 2. The metadata store as the cleanup tasks see it                   *)
(* ===================================================================== *)

Module Store.

(** SQL values of the columns the cleanup reads.  A timestamp is a number
    of microseconds since 0001-01-01T00:00:00 UTC. *)
Inductive value :=
| VNull
| VBool (b : bool)
| VTime (t : Z)
| VStr (s : string).

#[export] Instance value_eq_dec : EqDecision value.
Proof. solve_decision. Defined.

(** The ORM models named in [DATABASE_OBJECTS]. *)
Inductive model :=
| BaseJob | DagRun | Log | SlaMiss | DagModel | TaskFail | ImportError.

#[export] Instance model_eq_dec : EqDecision model.
Proof. solve_decision. Defined.

(** [model.__tablename__] *)
Definition tablename (m : model) : string :=
  match m with
  | BaseJob => "job"
  | DagRun => "dag_run"
  | Log => "log"
  | SlaMiss => "sla_miss"
  | DagModel => "dag"
  | TaskFail => "task_fail"
  | ImportError => "import_error"
  end.

(** [model.__name__] *)
Definition name (m : model) : string :=
  match m with
  | BaseJob => "BaseJob"
  | DagRun => "DagRun"
  | Log => "Log"
  | SlaMiss => "SlaMiss"
  | DagModel => "DagModel"
  | TaskFail => "TaskFail"
  | ImportError => "ImportError"
  end.

(** [str(model)] *)
Definition str_model (m : model) : string :=
  match m with
  | BaseJob => "<class 'airflow.jobs.base_job.BaseJob'>"
  | DagRun => "<class 'airflow.models.dagrun.DagRun'>"
  | Log => "<class 'airflow.models.log.Log'>"
  | SlaMiss => "<class 'airflow.models.slamiss.SlaMiss'>"
  | DagModel => "<class 'airflow.models.dag.DagModel'>"
  | TaskFail => "<class 'airflow.models.taskfail.TaskFail'>"
  | ImportError => "<class 'airflow.models.errors.ImportError'>"
  end.

(** Whether the model has a [dag_id] attribute: every model of
    [DATABASE_OBJECTS] but [ImportError], whose entry therefore sets
    [do_not_delete_by_dag_id]. *)
Definition has_dag_id (m : model) : bool :=
  match m with
  | ImportError => false
  | _ => true
  end.

(** A mapped column, such as [DagRun.execution_date]. *)
Record column := Column { col_model : model; col_key : string }.

#[export] Instance column_eq_dec : EqDecision column.
Proof. solve_decision. Defined.

(** A row: the owning-workflow identifier [dag_id] (a nullable string)
    and the other columns by name. *)
Record row := Row { row_dag_id : option string; row_cols : gmap string value }.

#[export] Instance row_eq_dec : EqDecision row.
Proof. solve_decision. Defined.

Definition dag_id_value (dag : option string) : value :=
  match dag with
  | Some s => VStr s
  | None => VNull
  end.

(** The value of a column in a row; a column the row does not carry reads
    as NULL. *)
Definition row_get (r : row) (c : column) : value :=
  if String.eqb (col_key c) "dag_id" then dag_id_value (row_dag_id r)
  else default VNull (row_cols r !! col_key c).

(** The database: the rows of every table that exists, by table name. *)
Abbreviation db := (gmap string (list row)).

Definition table (d : db) (m : model) : list row :=
  default [] (d !! tablename m).

(** ** Column expressions and their SQL (three-valued) meaning *)

(** Row-local criteria: [c <= v], [c == dag] (rendered [c IS NULL] when
    [dag] is [None]) and [c.is_(b)]. *)
Inductive criterion :=
| Le (c : column) (v : value)
| Eq (c : column) (dag : option string)
| Is (c : column) (b : bool).

(** [session.query(func.max(c))] with its [filter], [group_by] and
    [from_self] calls applied. *)
Record subquery := Subquery {
  sq_max : column;
  sq_filters : list criterion;
  sq_group_by : option column;
  sq_from_self : bool
}.

Inductive clause :=
| Where (c : criterion)
| NotIn (c : column) (s : subquery).

#[export] Instance criterion_eq_dec : EqDecision criterion.
Proof. solve_decision. Defined.

#[export] Instance subquery_eq_dec : EqDecision subquery.
Proof. solve_decision. Defined.

#[export] Instance clause_eq_dec : EqDecision clause.
Proof. solve_decision. Defined.

(** [session.query(model)] with its [options(load_only(..))] and
    [filter(..)] calls applied; the criteria of successive [filter] calls
    are conjoined. *)
Record query := Query {
  q_entity : model;
  q_load_only : option column;
  q_criteria : list clause
}.

#[export] Instance query_eq_dec : EqDecision query.
Proof. solve_decision. Defined.

(** Truth values of SQL: [None] is UNKNOWN. *)
Definition holds (t : option bool) : bool :=
  match t with
  | Some true => true
  | _ => false
  end.

(** [a <= b]; the age-check columns are timestamps, and a comparison
    with NULL is UNKNOWN. *)
Definition value_le (a b : value) : option bool :=
  match a, b with
  | VTime x, VTime y => Some (x <=? y)
  | _, _ => None
  end.

Definition eval_criterion (r : row) (c : criterion) : option bool :=
  match c with
  | Le c v => value_le (row_get r c) v
  | Eq c None => Some (bool_decide (row_get r c = VNull))
  | Eq c (Some s) =>
      match row_get r c with
      | VNull => None
      | x => Some (bool_decide (x = VStr s))
      end
  | Is c b => Some (bool_decide (row_get r c = VBool b))
  end.

(** SQL [MAX]: the greatest timestamp, NULLs ignored; NULL when there is
    none. *)
Fixpoint max_agg (vs : list value) : value :=
  match vs with
  | [] => VNull
  | v :: vs' =>
      match v, max_agg vs' with
      | VTime t, VTime a => VTime (Z.max t a)
      | VTime t, _ => VTime t
      | _, m => m
      end
  end.

Definition passes (filters : list criterion) (r : row) : bool :=
  forallb (fun c => holds (eval_criterion r c)) filters.

(** The rows a subquery returns over the rows of its table: one [MAX]
    over all filtered rows without [GROUP BY] (a single row even when
    nothing passes the filters), one [MAX] per group with it. *)
Definition group_maxima (s : subquery) (rows : list row) : list value :=
  let rows := List.filter (passes (sq_filters s)) rows in
  match sq_group_by s with
  | None => [max_agg (map (fun r => row_get r (sq_max s)) rows)]
  | Some g =>
      map (fun k =>
             max_agg (map (fun r => row_get r (sq_max s))
                        (List.filter (fun r => bool_decide (row_get r g = k)) rows)))
          (remove_dups (map (fun r => row_get r g) rows))
  end.

Definition eval_subquery (d : db) (s : subquery) : list value :=
  group_maxima s (table d (col_model (sq_max s))).

(** [x NOT IN (v1, .., vn)] *)
Definition not_in (x : value) (vs : list value) : option bool :=
  match vs with
  | [] => Some true
  | _ =>
      if bool_decide (x = VNull) then None
      else if bool_decide (x ∈ vs) then Some false
      else if bool_decide (VNull ∈ vs) then None
      else Some true
  end.

Definition eval_clause (d : db) (r : row) (c : clause) : option bool :=
  match c with
  | Where c => eval_criterion r c
  | NotIn c s => not_in (row_get r c) (eval_subquery d s)
  end.

Definition matches (d : db) (q : query) (r : row) : bool :=
  forallb (fun c => holds (eval_clause d r c)) (q_criteria q).

(** The rows [SELECT .. WHERE ..] returns, and the database a
    [DELETE .. WHERE ..] leaves: the rows of the table of the entity that
    do not match.  What the foreign keys of the schema do to the rows of
    other tables ([ON DELETE CASCADE]) is not part of the model. *)
Definition select_rows (d : db) (q : query) : list row :=
  List.filter (matches d q) (table d (q_entity q)).

Definition delete_rows (d : db) (q : query) : db :=
  match d !! tablename (q_entity q) with
  | Some rows =>
      <[tablename (q_entity q) := List.filter (fun r => negb (matches d q r)) rows]> d
  | None => d
  end.

(** The tables a statement reads. *)
Definition clause_tables (c : clause) : list string :=
  match c with
  | Where _ => []
  | NotIn _ s => [tablename (col_model (sq_max s))]
  end.

Definition query_tables (q : query) : list string :=
  tablename (q_entity q) :: flat_map clause_tables (q_criteria q).

Definition missing_table (d : db) (tables : list string) : option string :=
  List.find (fun t => bool_decide (d !! t = None)) tables.

End Store.

(* ===================================================================== *)
(** * 3. [plugins/task_generators/metadata_maintenance.py]                *)
(* ===================================================================== *)

Module Maintenance.
Import Store.

(** ** Exceptions, log records and the session *)

Inductive exn :=
| ProgrammingError (table : string)   (* the statement names a table that does not exist *)
| AttributeError (m : model) (attr : string)
| OverflowError
| OperationalError (msg : string)     (* sqlalchemy.exc.OperationalError *)
| StorageFailure (msg : string).      (* any other error raised by the storage layer *)

Inductive outcome (A : Type) :=
| Return (a : A)
| Raise (e : exn).
Arguments Return {A} a.
Arguments Raise {A} e.

Inductive level := INFO | WARNING | ERROR.

(** The log lines of the [try] block of [cleanup_function], of its
    [except] block and of [print_query]; the lines that print SQL text
    and the echo of the configuration before the [try] are not
    recorded. *)
Inductive message :=
| Msg (text : string)
| MsgEntry (entry : row) (date : value)   (* "\tEntry: <entry>, Date: <date>" *)
| MsgCount (n : nat) (model_name : string) (* "Process will be deleting <n> <name>(s)" *)
| MsgExn (e : exn).                        (* logging.error(e) *)

(** A session over the store: [committed] is what every session sees,
    [working] is the view of the open transaction of this session. *)
Record state := State {
  committed : db;
  working : db;
  log : list (level * message)
}.

Definition M (A : Type) : Type := state -> outcome A * state.

#[export] Instance M_ret : MRet M := fun A a s => (Return a, s).

#[export] Instance M_bind : MBind M := fun A B f m s =>
  match m s with
  | (Return a, s') => f a s'
  | (Raise e, s') => (Raise e, s')
  end.

Definition raise {A} (e : exn) : M A := fun s => (Raise e, s).

Definition logging (l : level) (m : message) : M unit := fun s =>
  (Return tt, State (committed s) (working s) (log s ++ [(l, m)])).

Definition gets {A} (f : state -> A) : M A := fun s => (Return (f s), s).

Definition set_working (f : db -> db) : M unit := fun s =>
  (Return tt, State (committed s) (f (working s)) (log s)).

Definition when (b : bool) (m : M unit) : M unit :=
  if b then m else mret tt.

Fixpoint for_each {A} (l : list A) (body : A -> M unit) : M unit :=
  match l with
  | [] => mret tt
  | x :: l' => body x ;; for_each l' body
  end.

(** [settings.Session()], [session.commit()] and [session.close()];
    closing a session discards what it has not committed. *)
Definition session_open (s : state) : state :=
  State (committed s) (committed s) (log s).

Definition session_commit : M unit := fun s =>
  (Return tt, State (working s) (working s) (log s)).

Definition session_close (s : state) : state :=
  State (committed s) (committed s) (log s).

(** The statements the task sends to the database. *)
Inductive statement :=
| SelectDistinct (c : column)
| SelectAll (q : query)
| Delete (q : query).

(** ** Query construction *)

Definition session_query (m : model) : query := Query m None [].

Definition options_load_only (q : query) (c : column) : query :=
  Query (q_entity q) (Some c) (q_criteria q).

Definition filter_ (q : query) (cs : list clause) : query :=
  Query (q_entity q) (q_load_only q) (q_criteria q ++ cs).

(** [and_] is only called with one clause, which SQLAlchemy returns as
    it is. *)
Definition and_ (c : clause) : clause := c.

Definition sq_filter (s : subquery) (entry : criterion) : subquery :=
  Subquery (sq_max s) (sq_filters s ++ [entry]) (sq_group_by s) (sq_from_self s).

Definition sq_set_group_by (s : subquery) (g : column) : subquery :=
  Subquery (sq_max s) (sq_filters s) (Some g) (sq_from_self s).

Definition from_self (s : subquery) : subquery :=
  Subquery (sq_max s) (sq_filters s) (sq_group_by s) true.

Definition DagRun_execution_date : column := Column DagRun "execution_date".
Definition DagRun_external_trigger : column := Column DagRun "external_trigger".
Definition DagRun_dag_id : column := Column DagRun "dag_id".

Definition build_query
    (airflow_db_model : model) (age_check_column : column) (max_date : Z)
    (keep_last : bool) (keep_last_filters : option (list criterion))
    (keep_last_group_by : option column) : query :=
  let query := options_load_only (session_query airflow_db_model) age_check_column in
  if negb keep_last then
    filter_ query [Where (Le age_check_column (VTime max_date))]
  else
    let subquery := Subquery DagRun_execution_date [] None false in
    let subquery :=
      match keep_last_filters with
      | Some entries => fold_left sq_filter entries subquery
      | None => subquery
      end in
    let subquery :=
      match keep_last_group_by with
      | Some g => sq_set_group_by subquery g
      | None => subquery
      end in
    let subquery := from_self subquery in
    filter_ query [and_ (NotIn age_check_column subquery);
                   and_ (Where (Le age_check_column (VTime max_date)))].

(** ** The entries of [DATABASE_OBJECTS] *)

Record db_object := DbObject {
  airflow_db_model : model;
  age_check_column : column;
  keep_last : bool;
  keep_last_filters : option (list criterion);
  keep_last_group_by : option column;
  do_not_delete_by_dag_id : bool
}.

Definition DATABASE_OBJECTS : list db_object :=
  [ DbObject BaseJob (Column BaseJob "latest_heartbeat") false None None false;
    DbObject DagRun DagRun_execution_date true
      (Some [Is DagRun_external_trigger false]) (Some DagRun_dag_id) false;
    DbObject Log (Column Log "dttm") false None None false;
    DbObject SlaMiss (Column SlaMiss "execution_date") false None None false;
    DbObject DagModel (Column DagModel "last_parsed_time") false None None false;
    DbObject TaskFail (Column TaskFail "start_date") false None None false;
    DbObject ImportError (Column ImportError "timestamp") false None None true ].

(** The module constants. *)
Definition PRINT_DELETES : bool := false.
Definition ENABLE_DELETE : bool := true.

Definition query_of (params : db_object) (max_date : Z) : query :=
  build_query (airflow_db_model params) (age_check_column params) max_date
    (keep_last params) (keep_last_filters params) (keep_last_group_by params).

(** [str(list(dag)[0])] on a row of the [DISTINCT dag_id] result. *)
Definition str_dag (dag : option string) : string :=
  match dag with
  | Some s => s
  | None => "None"
  end.

(** [[str(list(dag)[0]) for dag in dags] + [None]] *)
Definition list_dags_of (dags : list (option string)) : list (option string) :=
  map (fun dag => Some (str_dag dag)) dags ++ [None].

(** [query.filter(airflow_db_model.dag_id == dag)] *)
Definition partition_query (params : db_object) (max_date : Z)
    (dag : option string) : query :=
  filter_ (query_of params max_date)
    [Where (Eq (Column (airflow_db_model params) "dag_id") dag)].

(** The storage layer as a task meets it.  [fault st] is the error the
    database answers statement [st] with when it fails for a reason of
    its own (a lock timeout, a lost connection), if it does.
    [undefined_table t] is the error its driver raises for a statement
    that names the table [t] when there is no such table: a
    [ProgrammingError] on PostgreSQL and MySQL, an [OperationalError] on
    SQLite. *)
Record storage := Storage {
  answer :> statement -> option exn;
  undefined_table : string -> exn
}.

Section Tasks.

(** The two switches of the module, and the storage layer. *)
Variable print_deletes enable_delete : bool.
Variable fault : storage.

Definition execute (st : statement) (tables : list string) : M unit := fun s =>
  match fault st with
  | Some e => (Raise e, s)
  | None =>
      match missing_table (working s) tables with
      | Some t => (Raise (undefined_table fault t), s)
      | None => (Return tt, s)
      end
  end.

(** [query.all()] *)
Definition query_all (q : query) : M (list row) :=
  execute (SelectAll q) (query_tables q) ;;
  gets (fun s => select_rows (working s) q).

(** [query.delete(synchronize_session=False)] *)
Definition query_delete (q : query) : M unit :=
  execute (Delete q) (query_tables q) ;;
  set_working (fun d => delete_rows d q).

(** Iterating [session.query(airflow_db_model.dag_id).distinct()]: every
    owner that occurs, once, the missing owner (NULL) included; SQL fixes
    no order for the result. *)
Definition distinct_dag_ids (m : model) : M (list (option string)) :=
  execute (SelectDistinct (Column m "dag_id")) [tablename m] ;;
  gets (fun s => remove_dups (map row_dag_id (table (working s) m))).

Definition print_query (q : query) (m : model) (age : column) : M unit :=
  entries_to_delete ← query_all q;
  logging INFO (Msg ("Process will be deleting the following " ++ name m ++ "(s):")) ;;
  for_each entries_to_delete
    (fun entry => logging INFO (MsgEntry entry (row_get entry age))) ;;
  logging INFO (MsgCount (length entries_to_delete) (name m)).

(** The statements of one partition (or of the whole table). *)
Definition process (q : query) (params : db_object) : M unit :=
  when print_deletes (print_query q (airflow_db_model params) (age_check_column params)) ;;
  when enable_delete (logging INFO (Msg "Performing delete.") ;; query_delete q) ;;
  session_commit.

(** The body of the [try] block. *)
Definition cleanup_body (params : db_object) (max_date : Z) : M unit :=
  (if do_not_delete_by_dag_id params then
     process (query_of params max_date) params
   else
     (if has_dag_id (airflow_db_model params) then mret tt
      else raise (AttributeError (airflow_db_model params) "dag_id")) ;;
     session_commit ;;
     dags ← distinct_dag_ids (airflow_db_model params);
     for_each (list_dags_of dags)
       (fun dag => process (partition_query params max_date dag) params)) ;;
  when (negb enable_delete)
    (logging WARNING
       (Msg "You've opted to skip deleting the db entries. Set ENABLE_DELETE to True to delete entries!")) ;;
  logging INFO (Msg "Finished running cleanup process.").

(** [except ProgrammingError as e] *)
Definition cleanup_except (params : db_object) (e : exn) : M unit :=
  match e with
  | ProgrammingError _ =>
      logging ERROR (MsgExn e) ;;
      logging ERROR
        (Msg (str_model (airflow_db_model params) ++ " is not present in the metadata. Skipping."))
  | _ => raise e
  end.

Definition cleanup_function (params : db_object) (max_date : Z) : M unit := fun s =>
  let s := session_open s in
  let '(res, s) :=
    match cleanup_body params max_date s with
    | (Return tt, s') => (Return tt, s')
    | (Raise e, s') => cleanup_except params e s'
    end in
  (res, session_close s).

(** One [cleanup_<Model>] task on the store [d]: whether it succeeded,
    what it logged and the store it leaves. *)
Definition run_task (params : db_object) (max_date : Z) (d : db)
  : outcome unit * list (level * message) * db :=
  let '(res, s) := cleanup_function params max_date (State d d []) in
  (res, log s, committed s).

(** The cleanup tasks of one DAG run, one per entry and each on its own
    session, in the order of the entries. *)
Fixpoint run_cleanups (objects : list db_object) (max_date : Z) (d : db)
  : list (model * outcome unit) * db :=
  match objects with
  | [] => ([], d)
  | params :: objects' =>
      let '(res, _, d') := run_task params max_date d in
      let '(results, d'') := run_cleanups objects' max_date d' in
      ((airflow_db_model params, res) :: results, d'')
  end.

End Tasks.

(** ** [print_configuration_function] *)

Definition us_per_day : Z := 86400 * 1000000.

(** [timedelta(days)] in microseconds; Python refuses more than
    999999999 days either way. *)
Definition timedelta (days : Z) : outcome Z :=
  if (Z.abs days <=? 999999999) then Return (days * us_per_day)
  else Raise OverflowError.

(** [datetime + timedelta]; a [datetime] lies between the years 1 and
    9999, that is on one of the days 1 to 3652059. *)
Definition max_datetime : Z := 3652059 * us_per_day.

Definition datetime_add (t delta : Z) : outcome Z :=
  if ((0 <=? t + delta) && (t + delta <? max_datetime))%bool
  then Return (t + delta)
  else Raise OverflowError.

Section Configuration.

(** [plugins.constants.variables.DEFAULT_MAX_DB_ENTRY_AGE_IN_DAYS] *)
Variable DEFAULT_MAX_DB_ENTRY_AGE_IN_DAYS : Z.

(** The days the cutoff is computed from; [dag_run.conf] is absent, or a
    dictionary whose ["maxDBEntryAgeInDays"] entry, if any, is an
    integer. *)
Definition max_db_entry_age (dag_run_conf : option (gmap string Z)) : Z :=
  let max_db_entry_age_in_days :=
    match dag_run_conf with
    | Some conf =>
        if bool_decide (conf = ∅) then None
        else conf !! "maxDBEntryAgeInDays"
    | None => None
    end in
  match max_db_entry_age_in_days with
  | None => DEFAULT_MAX_DB_ENTRY_AGE_IN_DAYS
  | Some n => if n <? 1 then DEFAULT_MAX_DB_ENTRY_AGE_IN_DAYS else n
  end.

(** The value pushed to XCom under [max_date], given the clock [now];
    [cleanup_function] reads it back as it was pushed. *)
Definition print_configuration_function
    (now : Z) (dag_run_conf : option (gmap string Z)) : outcome Z :=
  match timedelta (- max_db_entry_age dag_run_conf) with
  | Return delta => datetime_add now delta
  | Raise e => Raise e
  end.

(** [resolveCutoff] in the words of the specification. *)
Definition resolveCutoff (now : Z) (requestedAgeDays : option Z) : Z :=
  match requestedAgeDays with
  | None => now - DEFAULT_MAX_DB_ENTRY_AGE_IN_DAYS * us_per_day
  | Some n =>
      if n <? 1 then now - DEFAULT_MAX_DB_ENTRY_AGE_IN_DAYS * us_per_day
      else now - n * us_per_day
  end.

End Configuration.

End Maintenance.

(* ===================================================================== *)
(** * 4. Notions the properties are stated with                           *)
(* ===================================================================== *)

Module Retention.
Import Store Maintenance.

(** [buildEligibilityPredicate] in the words of the specification: the
    protected keys are the maximum of the category's own age-check
    attribute, restricted by the exemption filters and grouped by the
    group-by attribute when these are supplied. *)
Definition protectedKeys (category : db_object) : subquery :=
  Subquery (age_check_column category)
    (default [] (keep_last_filters category))
    (keep_last_group_by category) true.

Definition buildEligibilityPredicate (category : db_object) (cutoffTimestamp : Z)
  : list clause :=
  if keep_last category then
    [NotIn (age_check_column category) (protectedKeys category);
     Where (Le (age_check_column category) (VTime cutoffTimestamp))]
  else
    [Where (Le (age_check_column category) (VTime cutoffTimestamp))].

(** The subquery [build_query] puts under [NOT IN]. *)
Definition protected_runs (category : db_object) : subquery :=
  Subquery DagRun_execution_date
    (default [] (keep_last_filters category))
    (keep_last_group_by category) true.

(** A row is old when its age-check value is at or before the cutoff, and
    exempt when it is old and the query still does not select it. *)
Definition old (category : db_object) (cutoff : Z) (r : row) : bool :=
  holds (value_le (row_get r (age_check_column category)) (VTime cutoff)).



(** The distinct owners of the rows, and the partitions a run enumerates
    on the store [d]. *)
Definition partitions_distinct (d : db) (m : model) : list (option string) :=
  remove_dups (map row_dag_id (table d m)).

Definition partitions (d : db) (m : model) : list (option string) :=
  list_dags_of (partitions_distinct d m).

(** A row belongs to the partition [dag]. *)
Definition in_partition (m : model) (dag : option string) (r : row) : bool :=
  holds (eval_criterion r (Eq (Column m "dag_id") dag)).

(** The store after the partitions [dags] have been deleted from, one
    after the other. *)
Definition delete_partitions (category : db_object) (cutoff : Z)
    (dags : list (option string)) (d : db) : db :=
  fold_left (fun d dag => delete_rows d (partition_query category cutoff dag)) dags d.

(** The storage layer never fails for a reason of its own, and reports a
    table that does not exist as a [ProgrammingError], as PostgreSQL and
    MySQL do. *)
Definition no_fault : storage := Storage (fun _ => None) ProgrammingError.

(** A keep-last category on the run table is keyed on its execution date:
    the column under [MAX] in [build_query]. *)
Definition keyed_on_execution_date (category : db_object) : Prop :=
  keep_last category = true ->
  airflow_db_model category = DagRun ->
  age_check_column category = DagRun_execution_date.

(** The category can be processed: its model has a [dag_id] unless the
    entry asks not to partition by it. *)
Definition partitionable (category : db_object) : bool :=
  do_not_delete_by_dag_id category || has_dag_id (airflow_db_model category).

(** A computation keeps an invariant of the session state, whether it
    returns or raises. *)
Definition preserves {A} (I : state -> Prop) (m : M A) : Prop :=
  forall s, I s -> I (snd (m s)).

(** The store is [d], with nothing uncommitted. *)
Definition store_is (d : db) (s : state) : Prop :=
  committed s = d /\ working s = d.



End Retention.

(* ===================================================================== *)
(** * 5. Example stores and categories                                    *)
(* ===================================================================== *)

Module Examples.
Import Store Maintenance Retention.

Definition run_row (dag : option string) (execution_date : Z) (external : bool) : row :=
  Row dag (<["execution_date" := VTime execution_date]>
             (<["external_trigger" := VBool external]> ∅)).

Definition log_row (dag : option string) (dttm : Z) : row :=
  Row dag (<["dttm" := VTime dttm]> ∅).

(** The [DagRun] entry of [DATABASE_OBJECTS], and the same without
    [keep_last_group_by]. *)
Definition dag_runs : db_object :=
  DbObject DagRun DagRun_execution_date true
    (Some [Is DagRun_external_trigger false]) (Some DagRun_dag_id) false.


(** A keep-last category on another table than the run table. *)
Definition logs_keep_last : db_object :=
  DbObject Log (Column Log "dttm") true None None false.

Definition logs : db_object :=
  DbObject Log (Column Log "dttm") false None None false.

(** Log entries of two days, and no run at all. *)
Definition store_logs_only : db :=
  <["log" := [log_row (Some "X") 5; log_row (Some "X") 9]]> (<["dag_run" := []]> ∅).

(** Two runs share the newest execution date. *)
Definition store_tied_runs : db :=
  <["dag_run" := [run_row (Some "X") 5 false;
                  run_row (Some "X") 9 false;
                  run_row (Some "Y") 9 false]]> ∅.




(** Log entries owned by X, by Y and by nobody. *)
Definition store_owners : db :=
  <["log" := [log_row (Some "X") 5; log_row (Some "Y") 6; log_row None 7]]> ∅.


End Examples.

(* ===================================================================== *)
(** * 6. Configuration files: [plugins/utils/miscellaneous.py]            *)
(* ===================================================================== *)

Module ConfigFiles.

(** A directory as [os.walk] finds it: the names of its files and its
    sub-directories, both in listing order.  A sub-directory that is not
    walked into (a symbolic link, or a directory that cannot be listed)
    carries no content. *)
#[warnings="-register-all"]
Inductive tree :=
| Node (filenames : list string) (dirs : list (string * option tree)).

Fixpoint ends_with_sep (a : string) : bool :=
  match a with
  | EmptyString => false
  | String c EmptyString => Ascii.eqb c "/"
  | String _ a' => ends_with_sep a'
  end.

(** [os.path.join(a, b)] of [posixpath]. *)
Definition join (a b : string) : string :=
  if SchemaType.startswith "/" b then b
  else if (String.eqb a "" || ends_with_sep a)%bool then a ++ b
  else a ++ "/" ++ b.

(** [os.walk(top)], top-down, as the list of the triples it yields. *)
Fixpoint walk (top : string) (t : tree) : list (string * list string * list string) :=
  match t with
  | Node filenames dirs =>
      (top, map fst dirs, filenames) ::
      (fix walk_dirs (l : list (string * option tree)) :=
         match l with
         | [] => []
         | (dirname, Some sub) :: l' => (walk (join top dirname) sub ++ walk_dirs l')%list
         | (_, None) :: l' => walk_dirs l'
         end) dirs
  end.

Section Matching.

(** [fnmatch.fnmatch(name, pat)] of the standard library. *)
Variable fnmatch : string -> string -> bool.

(** [fnmatch.filter(names, pat)] *)
Definition fnmatch_filter (names : list string) (pat : string) : list string :=
  List.filter (fun name => fnmatch name pat) names.

(** [get_dag_yaml_config_files(directory, suffix)], where [found] is the
    directory at the path [directory], if there is one. *)
Definition get_dag_yaml_config_files
    (found : option tree) (directory suffix : string) : list string :=
  match found with
  | None => []
  | Some t =>
      fold_left
        (fun matches '(root, _, filenames) =>
           fold_left
             (fun matches filename => (matches ++ [join root filename])%list)
             (fnmatch_filter filenames suffix) matches)
        (walk directory t) []
  end.

End Matching.

(** The directories [os.walk] comes through: [visits top t root files]
    when the walk of [t] from [top] yields the directory [root] with the
    files [files]. *)
Inductive visits : string -> tree -> string -> list string -> Prop :=
| visits_top top filenames dirs :
    visits top (Node filenames dirs) top filenames
| visits_sub top filenames dirs dirname sub root files :
    In (dirname, Some sub) dirs ->
    visits (join top dirname) sub root files ->
    visits top (Node filenames dirs) root files.

(** No name of the tree starts with a slash, as no name of a directory
    listing does. *)
Fixpoint relative_names (t : tree) : bool :=
  match t with
  | Node filenames dirs =>
      forallb (fun name => negb (SchemaType.startswith "/" name)) filenames &&
      (fix go (l : list (string * option tree)) :=
         match l with
         | [] => true
         | (dirname, sub) :: l' =>
             negb (SchemaType.startswith "/" dirname) &&
             match sub with
             | Some t' => relative_names t'
             | None => true
             end && go l'
         end) dirs
  end.

(** An example: [dags/] holds two files and a sub-directory. *)
Definition dags_tree : tree :=
  Node ["a.yaml"; "readme.md"]
       [("team", Some (Node ["b.yaml"; "c.yml"] [])); ("link", None)].

(** [name] ends with [suffix]. *)
Fixpoint has_suffix (suffix name : string) : bool :=
  String.eqb suffix name ||
  match name with
  | EmptyString => false
  | String _ name' => has_suffix suffix name'
  end.

(** A matcher that agrees with [fnmatch] on the pattern ["*.yaml"], and
    matches nothing for another pattern. *)
Definition yaml_only (name pat : string) : bool :=
  String.eqb pat "*.yaml" && has_suffix ".yaml" name.

End ConfigFiles.

(* ===================================================================== *)
(** * 7. The version constant of [metadata_maintenance.py]                *)
(* ===================================================================== *)

Module Version.

(** [s[: -n]] for a positive [n]: all but the last [n] characters. *)
Definition drop_last (n : nat) (s : string) : string :=
  String.substring 0 (String.length s - n) s.

(** [s.split(sep)] for a separator of one character. *)
Fixpoint split (sep : ascii) (s : string) : list string :=
  match s with
  | EmptyString => [EmptyString]
  | String c s' =>
      if Ascii.eqb c sep then EmptyString :: split sep s'
      else
        match split sep s' with
        | part :: parts => String c part :: parts
        | [] => [String c EmptyString]
        end
  end.

(** [sep.join(parts)] *)
Fixpoint join_with (sep : ascii) (parts : list string) : string :=
  match parts with
  | [] => EmptyString
  | [part] => part
  | part :: parts' => part ++ String sep (join_with sep parts')
  end.

(** [AIRFLOW_VERSION = airflow_version[: -len("+composer")].split(".")] *)
Definition AIRFLOW_VERSION (airflow_version : string) : list string :=
  split "." (drop_last (String.length "+composer") airflow_version).

End Version.

(* ===================================================================== *)
(** * 8. Further notions about the cleanup tasks                          *)
(* ===================================================================== *)

Module Reporting.
Import Store Maintenance Retention.

(** The lines [print_query] logs for the rows [entries]. *)
Definition report (m : model) (age : column) (entries : list row)
  : list (level * message) :=
  ((INFO, Msg ("Process will be deleting the following " ++ name m ++ "(s):")) ::
   map (fun entry => (INFO, MsgEntry entry (row_get entry age))) entries ++
   [(INFO, MsgCount (length entries) (name m))])%list.

(** The rows a log lists as about to be deleted. *)
Fixpoint entries (lg : list (level * message)) : list row :=
  match lg with
  | [] => []
  | (_, MsgEntry entry _) :: lg' => entry :: entries lg'
  | _ :: lg' => entries lg'
  end.

(** The queries a task of the category sends: the query of the category,
    narrowed to a partition or not. *)
Definition query_of_category (params : db_object) (max_date : Z) (q : query) : Prop :=
  q_entity q = airflow_db_model params /\
  forall d r, matches d q r = true -> matches d (query_of params max_date) r = true.

(** The rows of the run table that pass the filters of the category and
    are in the group of [r]. *)
Definition group_of (category : db_object) (d : db) (r : row) : list row :=
  List.filter
    (fun r' =>
       match keep_last_group_by category with
       | Some g => bool_decide (row_get r' g = row_get r g)
       | None => true
       end)
    (List.filter (passes (default [] (keep_last_filters category))) (table d DagRun)).

(** The greatest timestamp among the age-check values of the rows. *)
Definition newest (rows : list row) (t : Z) : Prop :=
  forall r' t', r' ∈ rows -> row_get r' DagRun_execution_date = VTime t' -> t' <= t.

(** Example rows of the job table. *)
Definition job_row (dag : option string) (latest_heartbeat : value) : row :=
  Row dag (<["latest_heartbeat" := latest_heartbeat]> ∅).

Definition jobs : db_object :=
  DbObject BaseJob (Column BaseJob "latest_heartbeat") false None None false.

(** Jobs with an old heartbeat, a recent one and none at all, and one
    log entry. *)
Definition store_jobs : db :=
  <["job" := [job_row (Some "X") (VTime 5); job_row (Some "X") (VTime 500);
              job_row None VNull; job_row None (VTime 7)]]>
    (<["log" := [Examples.log_row (Some "X") 5]]> ∅).

(** Runs that were all triggered from outside. *)
Definition store_external_runs : db :=
  <["dag_run" := [Examples.run_row (Some "X") 5 true;
                  Examples.run_row (Some "X") 9 true]]> ∅.

Definition dag_runs_internal_ungrouped : db_object :=
  DbObject DagRun DagRun_execution_date true
    (Some [Is DagRun_external_trigger false]) None false.

(** SQLite: the storage layer never fails for a reason of its own, and
    its driver reports a table that does not exist as an
    [OperationalError]. *)
Definition sqlite : storage :=
  Storage (fun _ => None) (fun t => OperationalError ("no such table: " ++ t)).

Definition is_ProgrammingError (e : exn) : Prop :=
  match e with
  | ProgrammingError _ => True
  | _ => False
  end.

(** A computation raises nothing but errors with the property [P]. *)
Definition raises_only {A} (P : exn -> Prop) (m : M A) : Prop :=
  forall s,
    match fst (m s) with
    | Raise e => P e
    | Return _ => True
    end.

End Reporting.

(* ===================================================================== *)
(** * Properties                                                          *)
(* ===================================================================== *)

Module SchemaTypeFacts.
Import SchemaType.

Lemma startswith_app (key s : string) :
  startswith key s = true <-> exists post, s = (key ++ post)%string.
Proof.
  revert s; induction key as [|a key IH]; intros s; simpl.
  - split; [intros _; exists s; reflexivity | reflexivity].
  - destruct s as [|b s]; simpl.
    + split; [discriminate | intros [post H]; discriminate].
    + destruct (Ascii.eqb a b) eqn:E.
      * apply Ascii.eqb_eq in E; subst b. rewrite IH.
        split; intros [post H]; exists post; [now rewrite H | now inversion H].
      * apply Ascii.eqb_neq in E.
        split; [discriminate | intros [post H]; inversion H; congruence].
Qed.

Lemma contains_occurs (key s : string) :
  contains key s = true <-> occurs_in key s.
Proof.
  induction s as [|b s IH]; simpl.
  - rewrite orb_false_r, startswith_app. split.
    + intros [post H]. exists EmptyString, post. exact H.
    + intros [pre [post H]]. destruct pre; simpl in H.
      * exists post; exact H.
      * discriminate.
  - rewrite orb_true_iff, startswith_app, IH. split.
    + intros [[post H] | [pre [post H]]].
      * exists EmptyString, post. exact H.
      * exists (String b pre), post. simpl. now rewrite H.
    + intros [pre [post H]]. destruct pre as [|c pre]; simpl in H.
      * left. exists post; exact H.
      * right. inversion H. exists pre, post; reflexivity.
Qed.

Lemma contains_not_occurs (key s : string) :
  contains key s = false <-> ~ occurs_in key s.
Proof.
  rewrite <- contains_occurs. destruct (contains key s); intuition congruence.
Qed.

(** The loop returns the value of the first item whose key occurs. *)
Lemma for_items_first (items : list (string * string)) (s : string) :
  (exists pre key value post,
      items = (pre ++ (key, value) :: post)%list /\
      occurs_in key s /\
      Forall (fun kv => ~ occurs_in (fst kv) s) pre /\
      for_items items s = Some value)
  \/ (Forall (fun kv => ~ occurs_in (fst kv) s) items /\
      for_items items s = None).
Proof.
  induction items as [|[key value] items IH]; simpl.
  - right. split; [constructor | reflexivity].
  - destruct (contains key s) eqn:E.
    + left. exists [], key, value, items. simpl.
      repeat split; [now apply contains_occurs | constructor].
    + apply contains_not_occurs in E.
      destruct IH as [(pre & k & v & post & -> & Hk & Hpre & Hres) | [Hall Hres]].
      * left. exists ((key, value) :: pre), k, v, post.
        repeat split; [exact Hk | now constructor | exact Hres].
      * right. split; [now constructor | exact Hres].
Qed.

Lemma no_key_occurs (s : string) :
  forallb (fun kv => negb (contains (fst kv) s)) type = true ->
  forall key value, In (key, value) type -> ~ occurs_in key s.
Proof.
  intros H key value Hin. rewrite forallb_forall in H.
  specialize (H _ Hin). simpl in H.
  apply contains_not_occurs. now destruct (contains key s).
Qed.

Lemma some_key_occurs (s : string) :
  existsb (fun kv => contains (fst kv) s) type = true ->
  exists key value, In (key, value) type /\ occurs_in key s.
Proof.
  intros H. apply existsb_exists in H. destruct H as [[key value] [Hin H]].
  exists key, value. split; [exact Hin | now apply contains_occurs].
Qed.

(** C9: for every input, [get_parsed_schema_type] returns the tag of the
    first key of its ordered table that occurs as a substring of the
    input, and ["STRING"] when no key occurs; ["datetime64"] gives
    ["TIMESTAMP"], ["nullable_int"] gives ["INTEGER"] and ["weird_enum"]
    gives ["STRING"]. *)
Theorem get_parsed_schema_type_first_match (s : string) :
  ((exists pre key value post,
       type = (pre ++ (key, value) :: post)%list /\
       occurs_in key s /\
       Forall (fun kv => ~ occurs_in (fst kv) s) pre /\
       get_parsed_schema_type s = value)
   \/ (Forall (fun kv => ~ occurs_in (fst kv) s) type /\
       get_parsed_schema_type s = "STRING"))
  /\ get_parsed_schema_type "datetime64" = "TIMESTAMP"
  /\ get_parsed_schema_type "nullable_int" = "INTEGER"
  /\ get_parsed_schema_type "weird_enum" = "STRING".
Proof.
  split; [|repeat split].
  unfold get_parsed_schema_type.
  destruct (for_items_first type s)
    as [(pre & key & value & post & Heq & Hk & Hpre & Hres) | [Hall Hres]];
    rewrite Hres.
  - left. exists pre, key, value, post. auto.
  - right. auto.
Qed.

(** ** Letter case *)

Lemma lower_app (a b : string) :
  lower (a ++ b) = (lower a ++ lower b)%string.
Proof.
  induction a as [|c a IH]; [reflexivity|].
  change (String (lower_ascii c) (lower (a ++ b)) =
          String (lower_ascii c) (lower a ++ lower b)).
  now rewrite IH.
Qed.

(** The keys of the table are written in lower case. *)
Lemma type_keys_lower (key value : string) :
  In (key, value) type -> lower key = key.
Proof.
  intros Hin.
  assert (H : forallb (fun kv => String.eqb (lower (fst kv)) (fst kv)) type = true)
    by reflexivity.
  rewrite forallb_forall in H. specialize (H _ Hin).
  now apply String.eqb_eq in H.
Qed.

(** A key that occurs as written also occurs after lower-casing. *)
Lemma occurs_in_lower (key value s : string) :
  In (key, value) type -> occurs_in key s -> occurs_in key (lower s).
Proof.
  intros Hin (pre & post & ->).
  exists (lower pre), (lower post).
  now rewrite !lower_app, (type_keys_lower key value Hin).
Qed.

(** C10, as amended: the substring test is case-sensitive, a key counts
    only where it occurs as it is written.  An input in which every key
    of the table that it holds up to letter case occurs only in another
    letter case (["DATETIME"], ["Timestamp"]) matches no key and is
    mapped to the default ["STRING"]. *)
Theorem get_parsed_schema_type_case_sensitive (s : string) :
  (forall key value,
      In (key, value) type -> occurs_in key (lower s) -> ~ occurs_in key s) ->
  get_parsed_schema_type s = "STRING".
Proof.
  intros Hcase. unfold get_parsed_schema_type.
  destruct (for_items_first type s)
    as [(pre & key & value & post & Heq & Hk & _ & _) | [_ Hres]].
  - exfalso.
    assert (Hin : In (key, value) type).
    { rewrite Heq. apply in_or_app. right. left. reflexivity. }
    exact (Hcase key value Hin (occurs_in_lower key value s Hin Hk) Hk).
  - now rewrite Hres.
Qed.

Lemma get_parsed_schema_type_case_sensitive_witness :
  (occurs_in "datetime" (lower "DATETIME") /\
   get_parsed_schema_type "DATETIME" = "STRING") /\
  (occurs_in "timestamp" (lower "Timestamp") /\
   get_parsed_schema_type "Timestamp" = "STRING").
Proof.
  split; (split; [exists EmptyString, EmptyString; reflexivity|]).
  - apply (get_parsed_schema_type_case_sensitive "DATETIME").
    intros key value Hin _.
    exact (no_key_occurs "DATETIME" eq_refl key value Hin).
  - apply (get_parsed_schema_type_case_sensitive "Timestamp").
    intros key value Hin _.
    exact (no_key_occurs "Timestamp" eq_refl key value Hin).
Defined.

(** C10, as stated, fails on ["Datetime"]: the input holds the key
    ["datetime"] only in another letter case, yet the key ["time"] occurs
    in it as written, so a key matches and the helper answers ["TIME"],
    not the default. *)
Lemma get_parsed_schema_type_mixed_case :
  occurs_in "datetime" (lower "Datetime") /\
  ~ occurs_in "datetime" "Datetime" /\
  occurs_in "time" "Datetime" /\
  get_parsed_schema_type "Datetime" = "TIME".
Proof.
  split; [|split; [|split]].
  - exists EmptyString, EmptyString. reflexivity.
  - apply contains_not_occurs. reflexivity.
  - exists "Date"%string, EmptyString. reflexivity.
  - reflexivity.
Qed.

End SchemaTypeFacts.

Module ConfigurationFacts.
Import Store Maintenance Retention.

Lemma max_db_entry_age_requested (default : Z) (conf : option (gmap string Z)) :
  max_db_entry_age default conf =
  match conf ≫= (fun c => c !! "maxDBEntryAgeInDays") with
  | None => default
  | Some n => if n <? 1 then default else n
  end.
Proof.
  unfold max_db_entry_age. destruct conf as [c|]; simpl; [|reflexivity].
  case_bool_decide as Hc; [|reflexivity].
  subst c. now rewrite lookup_empty.
Qed.

(** C5: the configuration step uses the default age when the requested
    age in days is absent or below 1 and the requested one otherwise, and
    the cutoff it hands on is the current time minus that many days; the
    substitution itself raises nothing.  Stated for a clock and a cutoff
    that are [datetime] values. *)
Theorem print_configuration_resolves_cutoff
    (default now : Z) (conf : option (gmap string Z)) :
  let requested := conf ≫= (fun c => c !! "maxDBEntryAgeInDays") in
  let cutoff := resolveCutoff default now requested in
  0 <= now < max_datetime ->
  0 <= cutoff < max_datetime ->
  print_configuration_function default now conf = Return cutoff.
Proof.
  intros requested cutoff Hnow Hcut.
  unfold print_configuration_function.
  rewrite max_db_entry_age_requested. fold requested.
  set (days := match requested with
               | None => default
               | Some n => if n <? 1 then default else n
               end).
  assert (Hc : cutoff = now - days * us_per_day).
  { subst cutoff days. unfold resolveCutoff.
    destruct requested as [n|]; [destruct (n <? 1)|]; reflexivity. }
  unfold max_datetime, us_per_day in *.
  unfold timedelta.
  destruct (Z.abs (- days) <=? 999999999) eqn:E.
  - unfold datetime_add, max_datetime, us_per_day.
    replace (now + - days * (86400 * 1000000)) with cutoff by lia.
    destruct (0 <=? cutoff) eqn:E1; [|lia].
    destruct (cutoff <? 3652059 * (86400 * 1000000)) eqn:E2; [|lia].
    reflexivity.
  - exfalso. apply Z.leb_gt in E. lia.
Qed.

Lemma print_configuration_resolves_cutoff_witness :
  let now := 738000 * us_per_day in
  print_configuration_function 30 now None = Return (now - 30 * us_per_day) /\
  print_configuration_function 30 now (Some (<["maxDBEntryAgeInDays" := 0]> ∅))
    = Return (now - 30 * us_per_day) /\
  print_configuration_function 30 now (Some (<["maxDBEntryAgeInDays" := -5]> ∅))
    = Return (now - 30 * us_per_day) /\
  print_configuration_function 30 now (Some (<["maxDBEntryAgeInDays" := 45]> ∅))
    = Return (now - 45 * us_per_day).
Proof.
  split; [|split; [|split]].
  - refine (eq_trans (print_configuration_resolves_cutoff 30 _ None _ _) _);
      [vm_compute; split; congruence .. | reflexivity].
  - refine (eq_trans (print_configuration_resolves_cutoff 30 _
                        (Some (<["maxDBEntryAgeInDays" := 0]> ∅)) _ _) _);
      [vm_compute; split; congruence .. | reflexivity].
  - refine (eq_trans (print_configuration_resolves_cutoff 30 _
                        (Some (<["maxDBEntryAgeInDays" := -5]> ∅)) _ _) _);
      [vm_compute; split; congruence .. | reflexivity].
  - refine (eq_trans (print_configuration_resolves_cutoff 30 _
                        (Some (<["maxDBEntryAgeInDays" := 45]> ∅)) _ _) _);
      [vm_compute; split; congruence .. | reflexivity].
Defined.

End ConfigurationFacts.

Module QueryFacts.
Import Store Maintenance Retention Examples.

Lemma fold_left_sq_filter (entries : list criterion) (s : subquery) :
  fold_left sq_filter entries s =
  Subquery (sq_max s) (sq_filters s ++ entries) (sq_group_by s) (sq_from_self s).
Proof.
  revert s; induction entries as [|e entries IH]; intros s; simpl.
  - rewrite app_nil_r. now destruct s.
  - rewrite IH. simpl. now rewrite <- app_assoc.
Qed.

Lemma protected_runs_built (category : db_object) :
  from_self
    (match keep_last_group_by category with
     | Some g =>
         sq_set_group_by
           (match keep_last_filters category with
            | Some entries =>
                fold_left sq_filter entries (Subquery DagRun_execution_date [] None false)
            | None => Subquery DagRun_execution_date [] None false
            end) g
     | None =>
         match keep_last_filters category with
         | Some entries =>
             fold_left sq_filter entries (Subquery DagRun_execution_date [] None false)
         | None => Subquery DagRun_execution_date [] None false
         end
     end) = protected_runs category.
Proof.
  unfold protected_runs.
  destruct (keep_last_filters category) as [entries|],
           (keep_last_group_by category) as [g|];
    rewrite ?fold_left_sq_filter; reflexivity.
Qed.

Lemma query_of_criteria (category : db_object) (cutoff : Z) :
  q_criteria (query_of category cutoff) =
  if keep_last category then
    [NotIn (age_check_column category) (protected_runs category);
     Where (Le (age_check_column category) (VTime cutoff))]
  else
    [Where (Le (age_check_column category) (VTime cutoff))].
Proof.
  unfold query_of, build_query.
  destruct (keep_last category); simpl; [|reflexivity].
  unfold and_. now rewrite protected_runs_built.
Qed.

Lemma query_of_entity (category : db_object) (cutoff : Z) :
  q_entity (query_of category cutoff) = airflow_db_model category.
Proof.
  unfold query_of, build_query. now destruct (keep_last category).
Qed.

(** C1, as amended: [build_query] selects from the category's model the
    rows with [age <= cutoff] when [keep_last] is false, and the rows with
    [age NOT IN protected AND age <= cutoff] when it is true, where
    [protected] is the maximum of [DagRun.execution_date], restricted by
    the category's filters and grouped by its group-by column when these
    are supplied. *)
Theorem build_query_predicate (category : db_object) (cutoff : Z) :
  q_entity (query_of category cutoff) = airflow_db_model category /\
  q_criteria (query_of category cutoff) =
    (if keep_last category then
       [NotIn (age_check_column category)
          (Subquery DagRun_execution_date
             (default [] (keep_last_filters category))
             (keep_last_group_by category) true);
        Where (Le (age_check_column category) (VTime cutoff))]
     else
       [Where (Le (age_check_column category) (VTime cutoff))]).
Proof.
  split; [apply query_of_entity | apply query_of_criteria].
Qed.

(** For a category keyed on the execution date of the run table, and for
    one without [keep_last], this is the predicate of the specification. *)
Lemma build_query_agrees_when_keyed (category : db_object) (cutoff : Z) :
  (keep_last category = true -> age_check_column category = DagRun_execution_date) ->
  q_criteria (query_of category cutoff) = buildEligibilityPredicate category cutoff.
Proof.
  intros H. rewrite query_of_criteria. unfold buildEligibilityPredicate.
  destruct (keep_last category); [|reflexivity].
  unfold protected_runs, protectedKeys. now rewrite H.
Qed.

(** C1, as stated, fails for a keep-last category on the log table: the
    protected keys are read from the run table, not from the category's
    own [dttm], and with no run in the store nothing is selected where
    the stated predicate selects the older log entry. *)
Lemma build_query_not_own_attribute :
  q_criteria (query_of logs_keep_last 100)
    <> buildEligibilityPredicate logs_keep_last 100 /\
  select_rows store_logs_only (query_of logs_keep_last 100) = [] /\
  select_rows store_logs_only
    (Query Log None (buildEligibilityPredicate logs_keep_last 100))
    = [log_row (Some "X") 5].
Proof.
  split; [discriminate | split; reflexivity].
Qed.

End QueryFacts.

Module ProtectionFacts.
Import Store Maintenance Retention Examples QueryFacts.

Lemma max_agg_elem (vs : list value) (a : Z) :
  max_agg vs = VTime a -> VTime a ∈ vs.
Proof.
  revert a. induction vs as [|w vs IH]; intros a E; [discriminate|].
  simpl in E. destruct w as [| |x|]; try (right; now apply IH).
  destruct (max_agg vs) as [| |b|] eqn:Eb; inversion E; subst; try (now left).
  destruct (Z.max_spec x b) as [[_ ->]|[_ ->]]; [right; now apply IH | now left].
Qed.

Lemma max_agg_shape (vs : list value) :
  max_agg vs = VNull \/ exists a, max_agg vs = VTime a.
Proof.
  induction vs as [|w vs IH]; simpl; [now left|].
  destruct w as [| |x|]; try exact IH.
  right. destruct (max_agg vs); eauto.
Qed.

Lemma max_agg_upper (vs : list value) (t : Z) :
  VTime t ∈ vs -> exists a, max_agg vs = VTime a /\ t <= a.
Proof.
  induction vs as [|w vs IH]; intros Hin; [inversion Hin|].
  apply elem_of_cons in Hin. simpl.
  destruct Hin as [<-|Hin].
  - destruct (max_agg vs) as [| |b|]; eexists; split; try reflexivity; lia.
  - destruct (IH Hin) as [a [-> Hle]].
    destruct w as [| |x|]; eexists; split; try reflexivity; lia.
Qed.

Lemma max_agg_time (vs : list value) (t : Z) :
  VTime t ∈ vs ->
  (forall t', VTime t' ∈ vs -> t' <= t) ->
  max_agg vs = VTime t.
Proof.
  intros Hin Hmax.
  destruct (max_agg_upper vs t Hin) as [a [E Hle]].
  rewrite E. f_equal.
  apply max_agg_elem in E. apply Hmax in E. lia.
Qed.

Lemma not_in_holds (x : value) (vs : list value) :
  holds (not_in x vs) = true <->
  vs = [] \/ (x <> VNull /\ (x ∉ vs) /\ (VNull ∉ vs)).
Proof.
  unfold not_in. destruct vs as [|v vs].
  - simpl. split; auto.
  - split.
    + intros H. right. repeat case_bool_decide; simpl in H; try discriminate. auto.
    + intros [Hd|(H1 & H2 & H3)]; [discriminate|].
      rewrite !bool_decide_eq_false_2 by assumption. reflexivity.
Qed.

Lemma not_in_elem (x : value) (vs : list value) :
  x ∈ vs -> holds (not_in x vs) = false.
Proof.
  intros Hin. destruct (holds (not_in x vs)) eqn:E; [|reflexivity].
  apply not_in_holds in E. destruct E as [->|(_ & H & _)]; [inversion Hin | contradiction].
Qed.

Lemma not_in_equiv (x : value) (vs vs' : list value) :
  (forall v, v ∈ vs <-> v ∈ vs') -> not_in x vs = not_in x vs'.
Proof.
  intros H. unfold not_in.
  destruct vs as [|v vs], vs' as [|v' vs'].
  - reflexivity.
  - exfalso. assert (Hv : v' ∈ @nil value) by (apply H; now left). inversion Hv.
  - exfalso. assert (Hv : v ∈ @nil value) by (apply H; now left). inversion Hv.
  - repeat case_bool_decide; try reflexivity; exfalso;
      repeat match goal with
             | Hn : ¬ (_ ∈ _) |- _ => apply Hn; apply H; assumption
             | Hn : ¬ (_ ∈ _) |- _ => apply Hn; apply H; assumption
             end.
Qed.

Lemma matches_keep_last (d : db) (category : db_object) (cutoff : Z) (r : row) :
  keep_last category = true ->
  matches d (query_of category cutoff) r =
  holds (not_in (row_get r (age_check_column category))
           (eval_subquery d (protected_runs category)))
  && old category cutoff r.
Proof.
  intros Hk. unfold matches. rewrite query_of_criteria, Hk. simpl.
  unfold old. now rewrite andb_true_r.
Qed.

Lemma matches_no_keep_last (d : db) (category : db_object) (cutoff : Z) (r : row) :
  keep_last category = false ->
  matches d (query_of category cutoff) r = old category cutoff r.
Proof.
  intros Hk. unfold matches. rewrite query_of_criteria, Hk. simpl.
  unfold old. now rewrite andb_true_r.
Qed.

Lemma elem_of_filter_list {A} (f : A -> bool) (l : list A) (x : A) :
  x ∈ List.filter f l <-> x ∈ l /\ f x = true.
Proof. rewrite !list_elem_of_In. apply filter_In. Qed.

Lemma elem_of_map_list {A B} (f : A -> B) (l : list A) (y : B) :
  y ∈ map f l <-> exists x, f x = y /\ x ∈ l.
Proof.
  rewrite list_elem_of_In, in_map_iff.
  split; intros [x [H1 H2]]; exists x; split; auto; now apply list_elem_of_In.
Qed.

(** The maximum of a group that holds a row with the greatest timestamp
    is that timestamp. *)
Lemma max_agg_rows (age : column) (rows : list row) (r : row) (t : Z) :
  r ∈ rows -> row_get r age = VTime t ->
  (forall r' t', r' ∈ rows -> row_get r' age = VTime t' -> t' <= t) ->
  max_agg (map (fun r => row_get r age) rows) = VTime t.
Proof.
  intros Hr Ht Hmax. apply max_agg_time.
  - apply elem_of_map_list. eauto.
  - intros t' Hin. apply elem_of_map_list in Hin. destruct Hin as [r' [E Hr']]. eauto.
Qed.




End ProtectionFacts.

Module SessionFacts.
Import Store Maintenance Retention Examples QueryFacts ProtectionFacts.

Section Preserves.
Context (I : state -> Prop).

Lemma preserves_ret {A} (a : A) : preserves I (mret a).
Proof. intros s Hs. exact Hs. Qed.

Lemma preserves_raise {A} (e : exn) : preserves I (@raise A e).
Proof. intros s Hs. exact Hs. Qed.

Lemma preserves_bind {A B} (m : M A) (f : A -> M B) :
  preserves I m -> (forall a, preserves I (f a)) -> preserves I (m ≫= f).
Proof.
  intros Hm Hf s Hs. unfold mbind, M_bind.
  specialize (Hm s Hs). destruct (m s) as [[a|e] s']; simpl in *.
  - now apply Hf.
  - exact Hm.
Qed.

Lemma preserves_when (b : bool) (m : M unit) :
  preserves I m -> preserves I (when b m).
Proof. intros Hm. destruct b; [exact Hm | apply preserves_ret]. Qed.

Lemma preserves_for_each {A} (l : list A) (body : A -> M unit) :
  (forall x, x ∈ l -> preserves I (body x)) -> preserves I (for_each l body).
Proof.
  induction l as [|x l IH]; intros H; simpl.
  - apply preserves_ret.
  - apply preserves_bind.
    + apply H. now left.
    + intros _. apply IH. intros y Hy. apply H. now right.
Qed.

Lemma preserves_gets {A} (f : state -> A) : preserves I (gets f).
Proof. intros s Hs. exact Hs. Qed.

Lemma preserves_execute (fault : storage)
    (st : statement) (tables : list string) :
  preserves I (execute fault st tables).
Proof.
  intros s Hs. unfold execute.
  destruct (fault st); [exact Hs|].
  destruct (missing_table (working s) tables); exact Hs.
Qed.

End Preserves.

(** ** Invariants of the session that a task keeps *)

Section Closed.
Context (I : state -> Prop) (enable : bool).

(** [I] does not look at the log, survives a commit and, when the
    deletion switch is on, survives a [DELETE]. *)
Hypothesis I_log : forall s l m,
  I s -> I (State (committed s) (working s) (log s ++ [(l, m)])).
Hypothesis I_commit : forall s,
  I s -> I (State (working s) (working s) (log s)).
Hypothesis I_delete : enable = true -> forall s q,
  I s -> I (State (committed s) (delete_rows (working s) q) (log s)).

Lemma logging_closed (l : level) (m : message) : preserves I (logging l m).
Proof. intros s Hs. now apply I_log. Qed.

Lemma commit_closed : preserves I session_commit.
Proof. intros s Hs. now apply I_commit. Qed.

Lemma print_query_closed (fault : storage) (q : query) (m : model) (age : column) :
  preserves I (print_query fault q m age).
Proof.
  unfold print_query, query_all.
  repeat (apply preserves_bind; [|intros ?]);
    try apply preserves_for_each; intros;
    auto using preserves_execute, preserves_gets, logging_closed.
Qed.

Lemma process_closed print (fault : storage) (q : query) (params : db_object) :
  preserves I (process print enable fault q params).
Proof.
  unfold process.
  apply preserves_bind; [|intros _; apply preserves_bind; [|intros _]].
  - apply preserves_when, print_query_closed.
  - destruct enable eqn:E; simpl; [|apply preserves_ret].
    apply preserves_bind; [apply logging_closed|intros _].
    unfold query_delete.
    apply preserves_bind; [apply preserves_execute|intros _].
    intros s Hs. now apply I_delete.
  - apply commit_closed.
Qed.

Lemma cleanup_body_closed print (fault : storage) (params : db_object) (max_date : Z) :
  preserves I (cleanup_body print enable fault params max_date).
Proof.
  unfold cleanup_body.
  apply preserves_bind; [|intros _; apply preserves_bind; [|intros _]].
  - destruct (do_not_delete_by_dag_id params).
    + apply process_closed.
    + apply preserves_bind;
        [|intros _; apply preserves_bind;
          [|intros _; apply preserves_bind; [|intros dags]]].
      * destruct (has_dag_id _); [apply preserves_ret | apply preserves_raise].
      * apply commit_closed.
      * unfold distinct_dag_ids. apply preserves_bind; [apply preserves_execute|].
        intros _. apply preserves_gets.
      * apply preserves_for_each. intros dag _. apply process_closed.
  - apply preserves_when, logging_closed.
  - apply logging_closed.
Qed.

Lemma cleanup_except_closed (params : db_object) (e : exn) :
  preserves I (cleanup_except params e).
Proof.
  unfold cleanup_except.
  destruct e; try apply preserves_raise.
  apply preserves_bind; [|intros _]; apply logging_closed.
Qed.

End Closed.

(** Whatever the body keeps of a store with nothing uncommitted, the
    whole task keeps. *)
Lemma cleanup_function_preserves (I : state -> Prop)
    print enable (fault : storage) (params : db_object) (max_date : Z) :
  (forall s, I s -> I (session_open s)) ->
  (forall s, I s -> I (session_close s)) ->
  preserves I (cleanup_body print enable fault params max_date) ->
  (forall e, preserves I (cleanup_except params e)) ->
  preserves I (cleanup_function print enable fault params max_date).
Proof.
  intros Hopen Hclose Hbody Hexc s Hs. unfold cleanup_function.
  specialize (Hbody _ (Hopen s Hs)).
  destruct (cleanup_body print enable fault params max_date (session_open s))
    as [[[]|e] s1]; simpl in *.
  - now apply Hclose.
  - specialize (Hexc e s1 Hbody).
    destruct (cleanup_except params e s1) as [res s2]; simpl in *.
    now apply Hclose.
Qed.

Lemma run_task_store (print enable : bool) (fault : storage) (params : db_object)
    (max_date : Z) (d : db) :
  snd (run_task print enable fault params max_date d) =
  committed (snd (cleanup_function print enable fault params max_date (State d d []))).
Proof.
  unfold run_task.
  now destruct (cleanup_function print enable fault params max_date (State d d []))
    as [res s].
Qed.

(** C7: with the deletion switch off, a cleanup task leaves the store
    exactly as it found it, for every category, every store, either
    setting of the reporting switch and whatever the storage layer
    answers; rows are deleted only with the switch on. *)
Theorem dry_run_leaves_store (print : bool) (fault : storage)
    (params : db_object) (max_date : Z) (d : db) :
  snd (run_task print false fault params max_date d) = d.
Proof.
  rewrite run_task_store.
  assert (H : store_is d
                (snd (cleanup_function print false fault params max_date (State d d [])))).
  { apply (cleanup_function_preserves (store_is d)).
    - intros s [Hc _]. split; exact Hc.
    - intros s [Hc _]. split; exact Hc.
    - apply cleanup_body_closed; try (intros; assumption).
      + intros s [_ Hw]. split; exact Hw.
      + discriminate.
    - intros e. apply cleanup_except_closed. intros; assumption.
    - split; reflexivity. }
  exact (proj1 H).
Qed.

End SessionFacts.

Module TaskFacts.
Import Store Maintenance Retention Examples QueryFacts ProtectionFacts SessionFacts.

Lemma delete_rows_lookup_None (d : db) (q : query) (t : string) :
  delete_rows d q !! t = None <-> d !! t = None.
Proof.
  unfold delete_rows.
  destruct (d !! tablename (q_entity q)) as [rows|] eqn:E; [|reflexivity].
  destruct (decide (tablename (q_entity q) = t)) as [<-|Hne].
  - rewrite lookup_insert_eq, E. split; discriminate.
  - now rewrite lookup_insert_ne.
Qed.

Lemma missing_table_ext (d d' : db) (tables : list string) :
  (forall t, d' !! t = None <-> d !! t = None) ->
  missing_table d' tables = missing_table d tables.
Proof.
  intros H. unfold missing_table.
  induction tables as [|t tables IH]; simpl; [reflexivity|].
  rewrite IH. destruct (H t) as [H1 H2].
  do 2 case_bool_decide; try reflexivity; exfalso; auto.
Qed.

Lemma missing_table_delete_rows (d : db) (q : query) (tables : list string) :
  missing_table (delete_rows d q) tables = missing_table d tables.
Proof. apply missing_table_ext. intros t. apply delete_rows_lookup_None. Qed.

Lemma partition_query_tables (params : db_object) (max_date : Z) (dag : option string) :
  query_tables (partition_query params max_date dag) =
  query_tables (query_of params max_date).
Proof.
  unfold query_tables, partition_query, filter_. simpl.
  rewrite flat_map_app. simpl. now rewrite app_nil_r.
Qed.

Lemma query_tables_head (params : db_object) (max_date : Z) :
  exists rest, query_tables (query_of params max_date) =
               tablename (airflow_db_model params) :: rest.
Proof.
  unfold query_tables. rewrite query_of_entity. eauto.
Qed.

Lemma bind_Return {A B} (m : M A) (f : A -> M B) (s s' : state) (a : A) :
  m s = (Return a, s') -> (m ≫= f) s = f a s'.
Proof. intros H. unfold mbind, M_bind. now rewrite H. Qed.

Lemma bind_Raise {A B} (m : M A) (f : A -> M B) (s s' : state) (e : exn) :
  m s = (Raise e, s') -> (m ≫= f) s = (Raise e, s').
Proof. intros H. unfold mbind, M_bind. now rewrite H. Qed.

Lemma state_eta (s : state) : State (committed s) (working s) (log s) = s.
Proof. now destruct s. Qed.

Lemma for_each_logging {A} (entries : list A) (f : A -> message) (s : state) :
  exists lg, for_each entries (fun e => logging INFO (f e)) s =
             (Return tt, State (committed s) (working s) lg).
Proof.
  revert s. induction entries as [|e entries IH]; intros s; simpl.
  - exists (log s). now rewrite state_eta.
  - erewrite bind_Return by reflexivity.
    destruct (IH (State (committed s) (working s) (log s ++ [(INFO, f e)])))
      as [lg Hlg].
    exists lg. exact Hlg.
Qed.

Lemma execute_ok (fault : storage) (st : statement) (tables : list string) (s : state) :
  fault st = None -> missing_table (working s) tables = None ->
  execute fault st tables s = (Return tt, s).
Proof. intros Hf Hm. unfold execute. now rewrite Hf, Hm. Qed.

Lemma execute_missing (st : statement) (tables : list string) (s : state) (t : string) :
  missing_table (working s) tables = Some t ->
  execute no_fault st tables s = (Raise (ProgrammingError t), s).
Proof. intros Hm. unfold execute, no_fault. now rewrite Hm. Qed.


Lemma print_query_ok (fault : storage) (q : query) (m : model) (age : column) (s : state) :
  fault (SelectAll q) = None ->
  missing_table (working s) (query_tables q) = None ->
  exists lg, print_query fault q m age s =
             (Return tt, State (committed s) (working s) lg).
Proof.
  intros Hf Hm. unfold print_query, query_all.
  erewrite bind_Return; [|erewrite bind_Return by (now apply execute_ok); reflexivity].
  erewrite bind_Return by reflexivity.
  match goal with
  | |- context [for_each ?l _ ≫= _] =>
      destruct (for_each_logging l (fun e => MsgEntry e (row_get e age))
                  (State (committed s) (working s)
                     (log s ++ [(INFO, Msg ("Process will be deleting the following "
                                              ++ name m ++ "(s):"))])))
        as [lg Hlg]
  end.
  erewrite bind_Return by exact Hlg.
  unfold logging. simpl. eauto.
Qed.

Lemma when_print_ok print (fault : storage) (q : query) (m : model) (age : column) (s : state) :
  (print = true -> fault (SelectAll q) = None) ->
  missing_table (working s) (query_tables q) = None ->
  exists lg, when print (print_query fault q m age) s =
             (Return tt, State (committed s) (working s) lg).
Proof.
  intros Hf Hm. destruct print; simpl.
  - apply print_query_ok; auto.
  - exists (log s). now rewrite state_eta.
Qed.

(** One partition with the deletion switch on: the statement goes
    through and is committed. *)
Lemma process_ok print (fault : storage) (q : query) (params : db_object) (s : state) :
  (print = true -> fault (SelectAll q) = None) ->
  fault (Delete q) = None ->
  missing_table (working s) (query_tables q) = None ->
  exists lg, process print true fault q params s =
             (Return tt,
              State (delete_rows (working s) q) (delete_rows (working s) q) lg).
Proof.
  intros Hsel Hdel Hm. unfold process.
  destruct (when_print_ok print fault q (airflow_db_model params)
              (age_check_column params) s Hsel Hm) as [lg Hp].
  erewrite bind_Return by exact Hp. simpl.
  erewrite bind_Return.
  2:{ erewrite bind_Return by reflexivity. unfold query_delete.
      erewrite bind_Return by (now apply execute_ok). reflexivity. }
  unfold session_commit. simpl. eauto.
Qed.


(** One partition on a store that lacks a table the statement names. *)
Lemma process_missing print enable (q : query) (params : db_object)
    (s : state) (t : string) :
  print || enable = true ->
  missing_table (working s) (query_tables q) = Some t ->
  exists lg, process print enable no_fault q params s =
             (Raise (ProgrammingError t),
              State (committed s) (working s) (log s ++ lg)) /\
             forall l m, (l, m) ∈ lg -> m = Msg "Performing delete.".
Proof.
  intros Hsw Hm. unfold process.
  destruct print; simpl.
  - exists []. rewrite app_nil_r, state_eta. split; [|intros l m H; inversion H].
    erewrite bind_Raise; [reflexivity|].
    unfold print_query, query_all.
    erewrite bind_Raise; [reflexivity|].
    erewrite bind_Raise; [reflexivity|]. now apply execute_missing.
  - simpl in Hsw. subst enable. simpl.
    exists [(INFO, Msg "Performing delete.")]. split.
    + erewrite bind_Return by reflexivity.
      erewrite bind_Raise; [reflexivity|].
      erewrite bind_Return by reflexivity. unfold query_delete.
      erewrite bind_Raise; [reflexivity|]. now apply execute_missing.
    + intros l m H. apply list_elem_of_singleton in H. congruence.
Qed.

(** The loop over the partitions, as long as every statement goes
    through. *)
Lemma for_each_partitions_ok print (fault : storage) (params : db_object) (max_date : Z)
    (dags : list (option string)) (s : state) :
  (forall dag, dag ∈ dags ->
     (print = true -> fault (SelectAll (partition_query params max_date dag)) = None) /\
     fault (Delete (partition_query params max_date dag)) = None) ->
  missing_table (working s) (query_tables (query_of params max_date)) = None ->
  committed s = working s ->
  exists lg,
    for_each dags
      (fun dag => process print true fault (partition_query params max_date dag) params) s
    = (Return tt,
       State (delete_partitions params max_date dags (working s))
             (delete_partitions params max_date dags (working s)) lg).
Proof.
  revert s. induction dags as [|dag dags IH]; intros s Hf Hm Hc; simpl.
  - exists (log s). unfold mret, M_ret, delete_partitions. simpl.
    rewrite <- Hc at 1. now rewrite state_eta.
  - destruct (Hf dag) as [Hsel Hdel]; [now left|].
    destruct (process_ok print fault (partition_query params max_date dag) params s)
      as [lg Hp]; auto.
    { now rewrite partition_query_tables. }
    erewrite bind_Return by exact Hp.
    apply IH.
    + intros dag' Hin. apply Hf. now right.
    + cbn [working]. rewrite missing_table_delete_rows. exact Hm.
    + reflexivity.
Qed.

Lemma cleanup_function_Return print enable (fault : storage) (params : db_object)
    (max_date : Z) (s s1 : state) :
  cleanup_body print enable fault params max_date (session_open s) = (Return tt, s1) ->
  cleanup_function print enable fault params max_date s = (Return tt, session_close s1).
Proof. intros H. unfold cleanup_function. now rewrite H. Qed.

Lemma cleanup_function_Raise print enable (fault : storage) (params : db_object)
    (max_date : Z) (s s1 : state) (e : exn) :
  cleanup_body print enable fault params max_date (session_open s) = (Raise e, s1) ->
  cleanup_function print enable fault params max_date s =
  (fst (cleanup_except params e s1), session_close (snd (cleanup_except params e s1))).
Proof.
  intros H. unfold cleanup_function. rewrite H.
  now destruct (cleanup_except params e s1).
Qed.

Lemma missing_table_head (d : db) (t : string) (rest : list string) :
  d !! t = None -> missing_table d (t :: rest) = Some t.
Proof.
  intros H. unfold missing_table. simpl. now rewrite bool_decide_eq_true_2.
Qed.

Lemma missing_table_tail (d : db) (t : string) (rest : list string) :
  missing_table d (t :: rest) = None -> missing_table d [t] = None.
Proof.
  unfold missing_table. simpl. now case_bool_decide.
Qed.

Lemma distinct_dag_ids_ok (fault : storage) (m : model) (s : state) :
  fault (SelectDistinct (Column m "dag_id")) = None ->
  missing_table (working s) [tablename m] = None ->
  distinct_dag_ids fault m s = (Return (partitions_distinct (working s) m), s).
Proof.
  intros Hf Hm. unfold distinct_dag_ids.
  erewrite bind_Return by (now apply execute_ok). reflexivity.
Qed.

(** The body of the task on a store that lacks the table of the model. *)
Lemma cleanup_body_missing print enable (params : db_object) (max_date : Z) (s : state) :
  partitionable params = true ->
  do_not_delete_by_dag_id params && negb print && negb enable = false ->
  working s !! tablename (airflow_db_model params) = None ->
  exists lg,
    cleanup_body print enable no_fault params max_date s =
    (Raise (ProgrammingError (tablename (airflow_db_model params))),
     State (working s) (working s) (log s ++ lg)) \/
    cleanup_body print enable no_fault params max_date s =
    (Raise (ProgrammingError (tablename (airflow_db_model params))),
     State (committed s) (working s) (log s ++ lg)).
Proof.
  intros Hpart Hsent Hnone. unfold cleanup_body.
  destruct (query_tables_head params max_date) as [rest Htabs].
  unfold partitionable in Hpart.
  destruct (do_not_delete_by_dag_id params); simpl in *.
  - destruct (process_missing print enable (query_of params max_date) params s
                (tablename (airflow_db_model params))) as [lg [Hp _]].
    + destruct print, enable; simpl in *; congruence.
    + rewrite Htabs. now apply missing_table_head.
    + exists lg. right. erewrite bind_Raise; [reflexivity|exact Hp].
  - rewrite Hpart. exists []. left. rewrite app_nil_r.
    erewrite bind_Raise; [reflexivity|].
    erewrite bind_Return by reflexivity.
    erewrite bind_Return by reflexivity.
    erewrite bind_Raise; [reflexivity|].
    unfold distinct_dag_ids. erewrite bind_Raise; [reflexivity|].
    apply execute_missing. now apply missing_table_head.
Qed.

Lemma run_task_missing print enable (params : db_object) (max_date : Z) (d : db) :
  partitionable params = true ->
  do_not_delete_by_dag_id params && negb print && negb enable = false ->
  d !! tablename (airflow_db_model params) = None ->
  exists lg : list (level * message),
    run_task print enable no_fault params max_date d =
    (Return tt,
     (lg ++ [(ERROR, MsgExn (ProgrammingError (tablename (airflow_db_model params))));
             (ERROR, Msg (str_model (airflow_db_model params)
                            ++ " is not present in the metadata. Skipping.")%string)])%list,
     d).
Proof.
  intros Hpart Hsent Hnone. unfold run_task.
  destruct (cleanup_body_missing print enable params max_date
              (session_open (State d d [])) Hpart Hsent Hnone) as [lg [H|H]];
    rewrite (cleanup_function_Raise _ _ _ _ _ _ _ _ H);
    exists lg; simpl; now rewrite <- app_assoc.
Qed.

(** A task neither creates nor drops a table. *)
Lemma run_task_lookup_None print enable (fault : storage) (params : db_object)
    (max_date : Z) (d : db) (t : string) :
  snd (run_task print enable fault params max_date d) !! t = None <-> d !! t = None.
Proof.
  rewrite run_task_store.
  set (I := fun s : state =>
              (forall t, committed s !! t = None <-> d !! t = None) /\
              (forall t, working s !! t = None <-> d !! t = None)).
  assert (H : I (snd (cleanup_function print enable fault params max_date
                        (State d d [])))).
  { apply (cleanup_function_preserves I).
    - intros s [Hc _]. split; exact Hc.
    - intros s [Hc _]. split; exact Hc.
    - apply cleanup_body_closed.
      + intros s l m Hs. exact Hs.
      + intros s [_ Hw]. split; exact Hw.
      + intros _ s q [Hc Hw]. split; [exact Hc|].
        intros t'. simpl. rewrite delete_rows_lookup_None. apply Hw.
    - intros e. apply cleanup_except_closed. intros s l m Hs. exact Hs.
    - split; reflexivity. }
  apply H.
Qed.

Lemma run_cleanups_app print enable (fault : storage) (l1 l2 : list db_object)
    (max_date : Z) (d : db) :
  run_cleanups print enable fault (l1 ++ l2) max_date d =
  ((fst (run_cleanups print enable fault l1 max_date d) ++
    fst (run_cleanups print enable fault l2 max_date
           (snd (run_cleanups print enable fault l1 max_date d))))%list,
   snd (run_cleanups print enable fault l2 max_date
          (snd (run_cleanups print enable fault l1 max_date d)))).
Proof.
  revert d. induction l1 as [|p l1 IH]; intros d; simpl.
  - now destruct (run_cleanups print enable fault l2 max_date d).
  - destruct (run_task print enable fault p max_date d) as [[res lg] d'].
    rewrite IH.
    destruct (run_cleanups print enable fault l1 max_date d') as [r1 d1]. simpl.
    reflexivity.
Qed.

Lemma run_cleanups_lookup_None print enable (fault : storage) (l : list db_object)
    (max_date : Z) (d : db) (t : string) :
  snd (run_cleanups print enable fault l max_date d) !! t = None <-> d !! t = None.
Proof.
  revert d. induction l as [|p l IH]; intros d; simpl; [reflexivity|].
  pose proof (run_task_lookup_None print enable fault p max_date d t) as Hp.
  destruct (run_task print enable fault p max_date d) as [[res lg] d'].
  specialize (IH d').
  destruct (run_cleanups print enable fault l max_date d') as [r1 d1].
  simpl in *. now rewrite IH.
Qed.

(** ** A table that does not exist, on any storage layer *)

Lemma execute_undefined (fault : storage) (st : statement) (tables : list string)
    (s : state) (t : string) :
  fault st = None ->
  missing_table (working s) tables = Some t ->
  execute fault st tables s = (Raise (undefined_table fault t), s).
Proof. intros Hf Hm. unfold execute. now rewrite Hf, Hm. Qed.

Lemma process_undefined print enable (fault : storage) (q : query)
    (params : db_object) (s : state) (t : string) :
  print || enable = true ->
  (forall st, fault st = None) ->
  missing_table (working s) (query_tables q) = Some t ->
  exists lg, process print enable fault q params s =
             (Raise (undefined_table fault t),
              State (committed s) (working s) (log s ++ lg)).
Proof.
  intros Hsw Hf Hm. unfold process.
  destruct print; simpl.
  - exists []. rewrite app_nil_r, state_eta.
    erewrite bind_Raise; [reflexivity|].
    unfold print_query, query_all.
    erewrite bind_Raise; [reflexivity|].
    erewrite bind_Raise; [reflexivity|]. now apply execute_undefined.
  - simpl in Hsw. subst enable. simpl.
    exists [(INFO, Msg "Performing delete.")].
    erewrite bind_Return by reflexivity.
    erewrite bind_Raise; [reflexivity|].
    erewrite bind_Return by reflexivity. unfold query_delete.
    erewrite bind_Raise; [reflexivity|]. now apply execute_undefined.
Qed.

Lemma cleanup_body_undefined print enable (fault : storage) (params : db_object)
    (max_date : Z) (d : db) :
  partitionable params = true ->
  do_not_delete_by_dag_id params && negb print && negb enable = false ->
  (forall st, fault st = None) ->
  d !! tablename (airflow_db_model params) = None ->
  exists lg,
    cleanup_body print enable fault params max_date (State d d []) =
    (Raise (undefined_table fault (tablename (airflow_db_model params))),
     State d d lg).
Proof.
  intros Hpart Hsent Hf Hnone. unfold cleanup_body.
  destruct (query_tables_head params max_date) as [rest Htabs].
  unfold partitionable in Hpart.
  destruct (do_not_delete_by_dag_id params); simpl in *.
  - destruct (process_undefined print enable fault (query_of params max_date) params
                (State d d []) (tablename (airflow_db_model params))) as [lg Hp].
    + destruct print, enable; simpl in *; congruence.
    + exact Hf.
    + rewrite Htabs. now apply missing_table_head.
    + exists lg. erewrite bind_Raise; [reflexivity|exact Hp].
  - rewrite Hpart. exists [].
    erewrite bind_Raise; [reflexivity|].
    erewrite bind_Return by reflexivity.
    erewrite bind_Return by reflexivity.
    erewrite bind_Raise; [reflexivity|].
    unfold distinct_dag_ids. erewrite bind_Raise; [reflexivity|].
    apply execute_undefined; [apply Hf|]. now apply missing_table_head.
Qed.

(** The task on a store that lacks the table of the model: what the
    driver raises decides between the skip and the failure of the task. *)
Lemma run_task_undefined print enable (fault : storage) (params : db_object)
    (max_date : Z) (d : db) :
  partitionable params = true ->
  do_not_delete_by_dag_id params && negb print && negb enable = false ->
  (forall st, fault st = None) ->
  d !! tablename (airflow_db_model params) = None ->
  exists lg : list (level * message),
    run_task print enable fault params max_date d =
    match undefined_table fault (tablename (airflow_db_model params)) with
    | ProgrammingError t =>
        (Return tt,
         (lg ++ [(ERROR, MsgExn (ProgrammingError t));
                 (ERROR, Msg (str_model (airflow_db_model params)
                                ++ " is not present in the metadata. Skipping.")%string)])%list,
         d)
    | e => (Raise e, lg, d)
    end.
Proof.
  intros Hpart Hsent Hf Hnone. unfold run_task.
  destruct (cleanup_body_undefined print enable fault params max_date d
              Hpart Hsent Hf Hnone) as [lg H].
  rewrite (cleanup_function_Raise print enable fault params max_date
             (State d d []) _ _ H).
  exists lg.
  destruct (undefined_table fault (tablename (airflow_db_model params)));
    simpl; try reflexivity.
  now rewrite <- app_assoc.
Qed.

(** ** What a task can raise *)

Section RaisesOnly.
Context (P : exn -> Prop).

Lemma raises_only_ret {A} (a : A) : Reporting.raises_only P (mret a).
Proof. intros s. exact Logic.I. Qed.

Lemma raises_only_bind {A B} (m : M A) (f : A -> M B) :
  Reporting.raises_only P m -> (forall a, Reporting.raises_only P (f a)) ->
  Reporting.raises_only P (m ≫= f).
Proof.
  intros Hm Hf s. unfold mbind, M_bind.
  specialize (Hm s). destruct (m s) as [[a|e] s']; simpl in *.
  - apply Hf.
  - exact Hm.
Qed.

Lemma raises_only_when (b : bool) (m : M unit) :
  Reporting.raises_only P m -> Reporting.raises_only P (when b m).
Proof. intros Hm. destruct b; [exact Hm | apply raises_only_ret]. Qed.

Lemma raises_only_for_each {A} (l : list A) (body : A -> M unit) :
  (forall x, Reporting.raises_only P (body x)) ->
  Reporting.raises_only P (for_each l body).
Proof.
  intros H. induction l as [|x l IH]; simpl.
  - apply raises_only_ret.
  - apply raises_only_bind; [apply H | intros _; exact IH].
Qed.

Lemma raises_only_logging (l : level) (m : message) :
  Reporting.raises_only P (logging l m).
Proof. intros s. exact Logic.I. Qed.

Context (fault : storage).
Hypothesis no_failure : forall st, fault st = None.
Hypothesis undefined : forall t, P (undefined_table fault t).

Lemma raises_only_execute (st : statement) (tables : list string) :
  Reporting.raises_only P (execute fault st tables).
Proof.
  intros s. unfold execute. rewrite no_failure.
  destruct (missing_table (working s) tables); simpl; [apply undefined | exact Logic.I].
Qed.

Lemma raises_only_process print enable (q : query) (params : db_object) :
  Reporting.raises_only P (process print enable fault q params).
Proof.
  unfold process.
  apply raises_only_bind; [|intros _; apply raises_only_bind; [|intros _]].
  - apply raises_only_when. unfold print_query, query_all.
    repeat (apply raises_only_bind; [|intros ?]);
      try apply raises_only_for_each; intros;
      try apply raises_only_execute; try apply raises_only_logging.
    intros s. exact Logic.I.
  - apply raises_only_when.
    apply raises_only_bind; [apply raises_only_logging|intros _].
    unfold query_delete.
    apply raises_only_bind; [apply raises_only_execute|intros _].
    intros s. exact Logic.I.
  - intros s. exact Logic.I.
Qed.

Lemma raises_only_cleanup_body print enable (params : db_object) (max_date : Z) :
  partitionable params = true ->
  Reporting.raises_only P (cleanup_body print enable fault params max_date).
Proof.
  intros Hpart. unfold cleanup_body, partitionable in *.
  apply raises_only_bind; [|intros _; apply raises_only_bind; [|intros _]].
  - destruct (do_not_delete_by_dag_id params); simpl in Hpart.
    + apply raises_only_process.
    + rewrite Hpart.
      apply raises_only_bind;
        [|intros _; apply raises_only_bind;
          [|intros _; apply raises_only_bind; [|intros dags]]].
      * apply raises_only_ret.
      * intros s. exact Logic.I.
      * unfold distinct_dag_ids.
        apply raises_only_bind; [apply raises_only_execute|intros _].
        intros s. exact Logic.I.
      * apply raises_only_for_each. intros dag. apply raises_only_process.
  - apply raises_only_when, raises_only_logging.
  - apply raises_only_logging.
Qed.

End RaisesOnly.

(** On a storage layer that does not fail and whose driver reports a
    missing table as a [ProgrammingError], the task of a category returns
    without raising, whatever the store. *)
Lemma run_task_returns print enable (fault : storage) (params : db_object)
    (max_date : Z) (d : db) :
  (forall st, fault st = None) ->
  (forall t, Reporting.is_ProgrammingError (undefined_table fault t)) ->
  partitionable params = true ->
  fst (fst (run_task print enable fault params max_date d)) = Return tt.
Proof.
  intros Hf Hpe Hpart. unfold run_task, cleanup_function.
  pose proof (raises_only_cleanup_body Reporting.is_ProgrammingError fault Hf Hpe
                print enable params max_date Hpart
                (session_open (State d d []))) as Hbody.
  destruct (cleanup_body print enable fault params max_date
              (session_open (State d d []))) as [[[]|e] s1]; simpl in *.
  - reflexivity.
  - destruct e; simpl in Hbody; try contradiction. reflexivity.
Qed.

Lemma run_cleanups_return print enable (fault : storage) (objects : list db_object)
    (max_date : Z) (d : db) :
  (forall st, fault st = None) ->
  (forall t, Reporting.is_ProgrammingError (undefined_table fault t)) ->
  List.Forall (fun p => partitionable p = true) objects ->
  List.Forall (fun r => snd r = Return tt)
    (fst (run_cleanups print enable fault objects max_date d)).
Proof.
  intros Hf Hpe Hall. revert d.
  induction Hall as [|p l Hp Hl IH]; intros d; simpl; [constructor|].
  pose proof (run_task_returns print enable fault p max_date d Hf Hpe Hp) as Hret.
  destruct (run_task print enable fault p max_date d) as [[res lg] d'].
  specialize (IH d').
  destruct (run_cleanups print enable fault l max_date d') as [r d'']. simpl in *.
  constructor; [exact Hret | exact IH].
Qed.

(** C6, as amended: when the table of a category does not exist and the
    driver of the database reports this as a [ProgrammingError] (as those
    of PostgreSQL and MySQL do), the task of the category stops at its
    first statement, logs the error and that the model "is not present in
    the metadata. Skipping." (through [logging.error]), returns without
    raising and leaves the store as it was.  That category alone is
    skipped: in a run over all the categories the tasks of the others
    give the results and the store they give without it, and every task
    of the run returns without raising. *)
Theorem missing_table_skips_category (print enable : bool) (fault : storage)
    (params : db_object) (max_date : Z) (d : db) :
  partitionable params = true ->
  do_not_delete_by_dag_id params && negb print && negb enable = false ->
  (forall st, fault st = None) ->
  (forall t, exists msg, undefined_table fault t = ProgrammingError msg) ->
  d !! tablename (airflow_db_model params) = None ->
  (exists (lg : list (level * message)) (msg : string),
      undefined_table fault (tablename (airflow_db_model params))
        = ProgrammingError msg /\
      run_task print enable fault params max_date d =
      (Return tt,
       (lg ++ [(ERROR, MsgExn (ProgrammingError msg));
               (ERROR, Msg (str_model (airflow_db_model params)
                              ++ " is not present in the metadata. Skipping.")%string)])%list,
       d)) /\
  (forall before after,
      exists r1 r2,
        run_cleanups print enable fault (before ++ after) max_date d
          = ((r1 ++ r2)%list,
             snd (run_cleanups print enable fault (before ++ after) max_date d)) /\
        length r1 = length before /\
        run_cleanups print enable fault (before ++ params :: after) max_date d
          = ((r1 ++ (airflow_db_model params, Return tt) :: r2)%list,
             snd (run_cleanups print enable fault (before ++ after) max_date d)) /\
        (List.Forall (fun p => partitionable p = true) (before ++ after) ->
         List.Forall (fun r => snd r = Return tt)
           (r1 ++ (airflow_db_model params, Return tt) :: r2))).
Proof.
  intros Hpart Hsent Hf Hpe Hnone.
  assert (Hpe' : forall t, Reporting.is_ProgrammingError (undefined_table fault t)).
  { intros t. destruct (Hpe t) as [msg ->]. exact Logic.I. }
  assert (Hskip : forall d', d' !! tablename (airflow_db_model params) = None ->
            exists (lg : list (level * message)) (msg : string),
              undefined_table fault (tablename (airflow_db_model params))
                = ProgrammingError msg /\
              run_task print enable fault params max_date d' =
              (Return tt,
               (lg ++ [(ERROR, MsgExn (ProgrammingError msg));
                       (ERROR, Msg (str_model (airflow_db_model params)
                                      ++ " is not present in the metadata. Skipping.")%string)])%list,
               d')).
  { intros d' Hnone'.
    destruct (run_task_undefined print enable fault params max_date d'
                Hpart Hsent Hf Hnone') as [lg Hrun].
    destruct (Hpe (tablename (airflow_db_model params))) as [msg Hmsg].
    exists lg, msg. split; [exact Hmsg|]. now rewrite Hmsg in Hrun. }
  split; [now apply Hskip|].
  intros before after.
  set (d1 := snd (run_cleanups print enable fault before max_date d)).
  exists (fst (run_cleanups print enable fault before max_date d)),
         (fst (run_cleanups print enable fault after max_date d1)).
  rewrite !run_cleanups_app. fold d1. simpl. split; [reflexivity|]. split; [|split].
  - clear. revert d. induction before as [|p l IH]; intros d; simpl; [reflexivity|].
    destruct (run_task print enable fault p max_date d) as [[res lg] d'].
    specialize (IH d').
    destruct (run_cleanups print enable fault l max_date d') as [r d'']. simpl in *.
    now rewrite IH.
  - destruct (Hskip d1) as (lg & msg & _ & Hrun).
    { subst d1. apply run_cleanups_lookup_None. exact Hnone. }
    rewrite Hrun.
    now destruct (run_cleanups print enable fault after max_date d1).
  - intros Hall. apply List.Forall_app in Hall. destruct Hall as [Hb Ha].
    apply List.Forall_app. split.
    + now apply run_cleanups_return.
    + constructor; [reflexivity|]. now apply run_cleanups_return.
Qed.

Lemma missing_table_skips_category_witness :
  exists (lg : list (level * message)) (msg : string),
    undefined_table no_fault (tablename Log) = ProgrammingError msg /\
    run_task false true no_fault logs 100 store_tied_runs =
    (Return tt,
     (lg ++ [(ERROR, MsgExn (ProgrammingError msg));
             (ERROR, Msg "<class 'airflow.models.log.Log'> is not present in the metadata. Skipping.")])%list,
     store_tied_runs).
Proof.
  exact (proj1 (missing_table_skips_category false true no_fault logs 100
                  store_tied_runs eq_refl eq_refl (fun _ => eq_refl)
                  (fun t => ex_intro _ t eq_refl) eq_refl)).
Defined.

(** C6, as stated, fails on SQLite, whose driver reports a table that
    does not exist as an [OperationalError]: the [except] clause of
    [cleanup_function] names [ProgrammingError] only, so nothing is
    logged, the error leaves the task, and the task of the category
    fails. *)
Lemma missing_table_fails_on_sqlite :
  store_tied_runs !! tablename Log = None /\
  run_task false true Reporting.sqlite logs 100 store_tied_runs
    = (Raise (OperationalError "no such table: log"), [], store_tied_runs) /\
  fst (run_cleanups false true Reporting.sqlite [dag_runs; logs] 100 store_tied_runs)
    = [(DagRun, Return tt); (Log, Raise (OperationalError "no such table: log"))].
Proof.
  repeat split.
Qed.





End TaskFacts.

Module IdempotenceFacts.
Import Store Maintenance Retention Examples QueryFacts ProtectionFacts
  SessionFacts TaskFacts.

Lemma filter_filter_comm {A} (f g : A -> bool) (l : list A) :
  List.filter f (List.filter g l) = List.filter g (List.filter f l).
Proof.
  induction l as [|x l IH]; simpl; [reflexivity|].
  destruct (f x) eqn:Ef, (g x) eqn:Eg; simpl; rewrite ?Ef, ?Eg, IH; reflexivity.
Qed.


Lemma max_agg_null (vs : list value) :
  max_agg vs = VNull -> forall t, VTime t ∉ vs.
Proof.
  intros E t Hin. destruct (max_agg_upper vs t Hin) as [a [Ea _]]. congruence.
Qed.

(** Dropping rows that do not carry the maximum leaves the maximum. *)
Lemma max_agg_filter_stable (age : column) (keep : row -> bool) (G : list row) :
  (forall r, r ∈ G -> keep r = false ->
             row_get r age <> max_agg (map (fun r => row_get r age) G)) ->
  max_agg (map (fun r => row_get r age) (List.filter keep G))
  = max_agg (map (fun r => row_get r age) G).
Proof.
  intros Hdrop.
  destruct (max_agg_shape (map (fun r => row_get r age) G)) as [E|[a E]].
  - rewrite E.
    destruct (max_agg_shape (map (fun r => row_get r age) (List.filter keep G)))
      as [E'|[a' E']]; [exact E'|].
    exfalso. apply max_agg_elem in E'. apply elem_of_map_list in E'.
    destruct E' as [r [Hr Hin]]. apply elem_of_filter_list in Hin.
    apply (max_agg_null _ E a'). apply elem_of_map_list. exists r. tauto.
  - rewrite E. pose proof (max_agg_elem _ _ E) as Hin.
    apply elem_of_map_list in Hin. destruct Hin as [r [Hr HrG]].
    apply max_agg_time.
    + apply elem_of_map_list. exists r. split; [exact Hr|].
      apply elem_of_filter_list. split; [exact HrG|].
      destruct (keep r) eqn:Ek; [reflexivity|].
      exfalso. apply (Hdrop r HrG Ek). congruence.
    + intros t' Hin'. apply elem_of_map_list in Hin'.
      destruct Hin' as [r' [Hr' Hin']]. apply elem_of_filter_list in Hin'.
      destruct (max_agg_upper (map (fun r => row_get r age) G) t') as [b [Eb Hle]].
      * apply elem_of_map_list. exists r'. tauto.
      * congruence.
Qed.

(** The protected values do not change when the rows dropped from the
    table are rows the [NOT IN] clause lets through. *)
Lemma group_maxima_stable (s : subquery) (keep : row -> bool) (rows : list row) :
  (forall r, r ∈ rows -> keep r = false ->
             holds (not_in (row_get r (sq_max s)) (group_maxima s rows)) = true) ->
  forall v, v ∈ group_maxima s (List.filter keep rows) <-> v ∈ group_maxima s rows.
Proof.
  intros Hdrop. unfold group_maxima in *.
  rewrite (filter_filter_comm (passes (sq_filters s)) keep).
  set (F := List.filter (passes (sq_filters s)) rows) in *.
  assert (HF : forall r, r ∈ F -> r ∈ rows)
    by (intros r Hr; now apply elem_of_filter_list in Hr).
  destruct (sq_group_by s) as [g|].
  - set (gmax := fun (l : list row) (k : value) =>
                   max_agg (map (fun r => row_get r (sq_max s))
                              (List.filter (fun r => bool_decide (row_get r g = k)) l))).
    set (P := map (gmax F) (remove_dups (map (fun r => row_get r g) F))) in *.
    assert (HP : forall k, k ∈ map (fun r => row_get r g) F -> gmax F k ∈ P).
    { intros k Hk. apply elem_of_map_list. exists k. split; [reflexivity|].
      now apply elem_of_remove_dups. }
    assert (Hsame : forall k, k ∈ map (fun r => row_get r g) F ->
                              gmax (List.filter keep F) k = gmax F k).
    { intros k Hk. unfold gmax. rewrite filter_filter_comm.
      apply max_agg_filter_stable. intros r Hr Hkeep Heq.
      apply elem_of_filter_list in Hr. destruct Hr as [Hr _].
      specialize (Hdrop r (HF r Hr) Hkeep). apply not_in_holds in Hdrop.
      specialize (HP k Hk).
      assert (Hd : P = [] \/ (row_get r (sq_max s) <> VNull /\
                               (row_get r (sq_max s) ∉ P) /\ (VNull ∉ P)))
        by exact Hdrop.
      assert (Heq' : row_get r (sq_max s) = gmax F k) by exact Heq.
      destruct Hd as [Hnil|(_ & Hnot & _)].
      - rewrite Hnil in HP. inversion HP.
      - apply Hnot. now rewrite Heq'. }
    assert (Hkept : forall k, k ∈ map (fun r => row_get r g) F ->
                              k ∈ map (fun r => row_get r g) (List.filter keep F)).
    { intros k Hk. pose proof (HP k Hk) as HkP.
      destruct (max_agg_shape
                  (map (fun r => row_get r (sq_max s))
                     (List.filter (fun r => bool_decide (row_get r g = k)) F)))
        as [E|[a E]].
      - apply elem_of_map_list in Hk. destruct Hk as [r0 [Hk0 Hr0]].
        apply elem_of_map_list. exists r0. split; [exact Hk0|].
        apply elem_of_filter_list. split; [exact Hr0|].
        destruct (keep r0) eqn:Ek; [reflexivity|]. exfalso.
        specialize (Hdrop r0 (HF r0 Hr0) Ek). apply not_in_holds in Hdrop.
        assert (Hd : P = [] \/ (row_get r0 (sq_max s) <> VNull /\
                                 (row_get r0 (sq_max s) ∉ P) /\ (VNull ∉ P)))
          by exact Hdrop.
        assert (E' : gmax F k = VNull) by exact E.
        rewrite E' in HkP.
        destruct Hd as [Hnil|(_ & _ & Hnull)].
        + rewrite Hnil in HkP. inversion HkP.
        + contradiction.
      - pose proof (max_agg_elem _ _ E) as Hin.
        apply elem_of_map_list in Hin. destruct Hin as [r [Hr HrG]].
        apply elem_of_filter_list in HrG. destruct HrG as [HrF Hrk].
        apply bool_decide_eq_true in Hrk.
        apply elem_of_map_list. exists r. split; [exact Hrk|].
        apply elem_of_filter_list. split; [exact HrF|].
        destruct (keep r) eqn:Ek; [reflexivity|]. exfalso.
        specialize (Hdrop r (HF r HrF) Ek). apply not_in_holds in Hdrop.
        assert (Hd : P = [] \/ (row_get r (sq_max s) <> VNull /\
                                 (row_get r (sq_max s) ∉ P) /\ (VNull ∉ P)))
          by exact Hdrop.
        assert (E' : gmax F k = VTime a) by exact E.
        rewrite E' in HkP.
        destruct Hd as [Hnil|(_ & Hnot & _)].
        + rewrite Hnil in HkP. inversion HkP.
        + apply Hnot. now rewrite Hr. }
    assert (Hsub : forall k, k ∈ map (fun r => row_get r g) (List.filter keep F) ->
                             k ∈ map (fun r => row_get r g) F).
    { intros k Hk. apply elem_of_map_list in Hk. destruct Hk as [r [Hr Hin]].
      apply elem_of_filter_list in Hin. apply elem_of_map_list. exists r. tauto. }
    intros v. split; intros Hv; apply elem_of_map_list in Hv;
      destruct Hv as [k [Hv Hk]]; rewrite elem_of_remove_dups in Hk;
      apply elem_of_map_list; exists k.
    + split; [|apply elem_of_remove_dups; now apply Hsub].
      assert (Hv' : gmax (List.filter keep F) k = v) by exact Hv.
      change (gmax F k = v).
      rewrite <- Hv'. symmetry. apply Hsame. now apply Hsub.
    + split; [|apply elem_of_remove_dups; now apply Hkept].
      assert (Hv' : gmax F k = v) by exact Hv.
      change (gmax (List.filter keep F) k = v).
      rewrite <- Hv'. now apply Hsame.
  - rewrite max_agg_filter_stable; [reflexivity|].
    intros r Hr Hkeep Heq.
    specialize (Hdrop r (HF r Hr) Hkeep). apply not_in_holds in Hdrop.
    destruct Hdrop as [Hnil|(_ & Hnot & _)]; [discriminate|].
    apply Hnot. apply list_elem_of_singleton. exact Heq.
Qed.

Lemma tablename_inj (m m' : model) : tablename m = tablename m' -> m = m'.
Proof. destruct m, m'; simpl; intros H; try reflexivity; discriminate. Qed.

Lemma table_delete_rows (d : db) (q : query) (m : model) :
  table (delete_rows d q) m =
  if decide (m = q_entity q)
  then List.filter (fun r => negb (matches d q r)) (table d m)
  else table d m.
Proof.
  unfold delete_rows, table.
  destruct (d !! tablename (q_entity q)) as [rows|] eqn:E.
  - destruct (decide (m = q_entity q)) as [->|Hne].
    + now rewrite lookup_insert_eq, E.
    + rewrite lookup_insert_ne; [reflexivity|].
      intros H. apply Hne. symmetry. now apply tablename_inj.
  - destruct (decide (m = q_entity q)) as [->|Hne]; [|reflexivity].
    now rewrite E.
Qed.


Lemma in_partition_spec (m : model) (dag : option string) (r : row) :
  in_partition m dag r = true <-> row_dag_id r = dag.
Proof.
  unfold in_partition, eval_criterion, row_get. simpl.
  destruct dag as [s|], (row_dag_id r) as [s'|]; simpl;
    try case_bool_decide; simpl; split; intros Hx; congruence.
Qed.

Lemma matches_partition (d : db) (params : db_object) (max_date : Z)
    (dag : option string) (r : row) :
  matches d (partition_query params max_date dag) r =
  matches d (query_of params max_date) r
  && in_partition (airflow_db_model params) dag r.
Proof.
  unfold matches, partition_query, filter_. simpl.
  rewrite forallb_app. simpl. now rewrite andb_true_r.
Qed.

Lemma partition_query_entity (params : db_object) (max_date : Z) (dag : option string) :
  q_entity (partition_query params max_date dag) = airflow_db_model params.
Proof. unfold partition_query, filter_. simpl. apply query_of_entity. Qed.

(** A [DELETE] of rows the category's query selects does not change
    which rows the query selects afterwards. *)
Lemma matches_stable (d : db) (params : db_object) (max_date : Z) (q : query) :
  keyed_on_execution_date params ->
  q_entity q = airflow_db_model params ->
  (forall r, matches d q r = true -> matches d (query_of params max_date) r = true) ->
  forall r, matches (delete_rows d q) (query_of params max_date) r
            = matches d (query_of params max_date) r.
Proof.
  intros Hkeyed Hent Himp r.
  destruct (keep_last params) eqn:Hk.
  2:{ now rewrite !matches_no_keep_last. }
  rewrite !matches_keep_last by exact Hk. f_equal. f_equal.
  apply not_in_equiv. unfold eval_subquery, protected_runs. simpl.
  rewrite table_delete_rows, Hent.
  destruct (decide (DagRun = airflow_db_model params)) as [Hm|Hm]; [|reflexivity].
  apply group_maxima_stable.
  intros r' Hr' Hkeep. apply negb_false_iff in Hkeep.
  apply Himp in Hkeep. rewrite matches_keep_last in Hkeep by exact Hk.
  apply andb_true_iff in Hkeep. destruct Hkeep as [Hkeep _].
  rewrite (Hkeyed Hk (eq_sym Hm)) in Hkeep. exact Hkeep.
Qed.

Lemma delete_partitions_cons (params : db_object) (max_date : Z)
    (dag : option string) (dags : list (option string)) (d : db) :
  delete_partitions params max_date (dag :: dags) d =
  delete_partitions params max_date dags
    (delete_rows d (partition_query params max_date dag)).
Proof. reflexivity. Qed.

Lemma partition_matches_query (d : db) (params : db_object) (max_date : Z)
    (dag : option string) (r : row) :
  matches d (partition_query params max_date dag) r = true ->
  matches d (query_of params max_date) r = true.
Proof.
  rewrite matches_partition. intros H. now apply andb_true_iff in H.
Qed.




Lemma partitions_cover (d : db) (m : model) (r : row) :
  r ∈ table d m -> row_dag_id r ∈ partitions d m.
Proof.
  intros Hr. unfold partitions, list_dags_of.
  apply elem_of_app. destruct (row_dag_id r) as [s|] eqn:E.
  - left. apply elem_of_map_list. exists (Some s). split; [reflexivity|].
    unfold partitions_distinct. apply elem_of_remove_dups.
    apply elem_of_map_list. eauto.
  - right. now left.
Qed.



End IdempotenceFacts.

Module RunFacts.
Import Store Maintenance Retention Examples QueryFacts ProtectionFacts
  SessionFacts TaskFacts IdempotenceFacts.

Lemma run_task_log (print enable : bool) (fault : storage) (params : db_object)
    (max_date : Z) (d : db) :
  snd (fst (run_task print enable fault params max_date d)) =
  log (snd (cleanup_function print enable fault params max_date (State d d []))).
Proof.
  unfold run_task.
  now destruct (cleanup_function print enable fault params max_date (State d d []))
    as [res s].
Qed.

(** The store a task leaves when the deletion switch is on and every
    statement goes through. *)
Lemma run_task_enabled_store (print : bool) (params : db_object) (max_date : Z) (d : db) :
  partitionable params = true ->
  missing_table d (query_tables (query_of params max_date)) = None ->
  snd (run_task print true no_fault params max_date d) =
  if do_not_delete_by_dag_id params
  then delete_rows d (query_of params max_date)
  else delete_partitions params max_date (partitions d (airflow_db_model params)) d.
Proof.
  intros Hpart Hm. rewrite run_task_store.
  unfold partitionable in Hpart.
  destruct (do_not_delete_by_dag_id params) eqn:Hscoped; simpl in Hpart.
  - destruct (process_ok print no_fault (query_of params max_date) params
                (session_open (State d d []))) as [lg Hp]; auto.
    erewrite cleanup_function_Return.
    2:{ unfold cleanup_body. rewrite Hscoped.
        erewrite bind_Return by exact Hp.
        erewrite bind_Return by reflexivity. reflexivity. }
    reflexivity.
  - destruct (for_each_partitions_ok print no_fault params max_date
                (partitions d (airflow_db_model params))
                (State d d [])) as [lg Hloop]; auto.
    erewrite cleanup_function_Return.
    2:{ unfold cleanup_body. rewrite Hscoped, Hpart.
        erewrite bind_Return.
        2:{ erewrite bind_Return by reflexivity.
            erewrite bind_Return by reflexivity.
            erewrite bind_Return.
            2:{ apply distinct_dag_ids_ok; [reflexivity|].
                destruct (query_tables_head params max_date) as [rest Hr].
                rewrite Hr in Hm. now apply missing_table_tail in Hm. }
            exact Hloop. }
        erewrite bind_Return by reflexivity. reflexivity. }
    reflexivity.
Qed.









(** Every entry of [DATABASE_OBJECTS] is such a category. *)
Lemma DATABASE_OBJECTS_keyed (params : db_object) :
  In params DATABASE_OBJECTS -> keyed_on_execution_date params.
Proof.
  simpl. intros H.
  repeat (destruct H as [<-|H]; [intros Hk Hm; try discriminate; reflexivity|]).
  destruct H.
Qed.


(** C3: the partitions that [cleanup_function] walks through on a log table
    whose rows are owned by X, by Y and by nobody: the distinct owners
    include the missing owner, which [str] turns into the string "None",
    and [None] is appended after it.  Four partitions are processed, as
    the four counts in the report show. *)
Theorem unowned_rows_enumerated_twice :
  fst (distinct_dag_ids no_fault Log (State store_owners store_owners []))
    = Return [Some "X"; Some "Y"; None] /\
  partitions store_owners Log = [Some "X"; Some "Y"; Some "None"; None] /\
  length (partitions store_owners Log) = 4%nat /\
  select_rows store_owners (partition_query logs 100 (Some "None")) = [] /\
  snd (fst (run_task true false no_fault logs 100 store_owners))
    = [(INFO, Msg "Process will be deleting the following Log(s):");
       (INFO, MsgEntry (log_row (Some "X") 5) (VTime 5));
       (INFO, MsgCount 1 "Log");
       (INFO, Msg "Process will be deleting the following Log(s):");
       (INFO, MsgEntry (log_row (Some "Y") 6) (VTime 6));
       (INFO, MsgCount 1 "Log");
       (INFO, Msg "Process will be deleting the following Log(s):");
       (INFO, MsgCount 0 "Log");
       (INFO, Msg "Process will be deleting the following Log(s):");
       (INFO, MsgEntry (log_row None 7) (VTime 7));
       (INFO, MsgCount 1 "Log");
       (WARNING, Msg "You've opted to skip deleting the db entries. Set ENABLE_DELETE to True to delete entries!");
       (INFO, Msg "Finished running cleanup process.")].
Proof.
  repeat split.
Qed.

(** When every row has an owner, the partitions are the distinct owners
    followed by the unowned partition. *)
Lemma partitions_all_owned (d : db) (m : model) :
  (forall r, r ∈ table d m -> row_dag_id r <> None) ->
  partitions d m = (partitions_distinct d m ++ [None])%list.
Proof.
  intros Howned. unfold partitions, list_dags_of. f_equal.
  assert (H : forall dag, dag ∈ partitions_distinct d m -> dag <> None).
  { intros dag Hin. unfold partitions_distinct in Hin.
    rewrite elem_of_remove_dups in Hin. apply elem_of_map_list in Hin.
    destruct Hin as [r [<- Hr]]. now apply Howned. }
  induction (partitions_distinct d m) as [|dag l IH]; simpl; [reflexivity|].
  rewrite IH by (intros dag' Hin; apply H; now right).
  destruct dag as [s|]; [reflexivity|].
  exfalso. apply (H None); [now left | reflexivity].
Qed.

End RunFacts.

Module SchemaTypeMore.
Import SchemaType SchemaTypeFacts.

Lemma for_items_value (items : list (string * string)) (s value : string) :
  for_items items s = Some value -> In value (map snd items).
Proof.
  induction items as [|[k v] items IH]; simpl; [discriminate|].
  destruct (contains k s); intros H.
  - left. congruence.
  - right. auto.
Qed.

(** The helper only ever answers one of the seven storage tags. *)
Theorem get_parsed_schema_type_range (s : string) :
  In (get_parsed_schema_type s)
     ["TIMESTAMP"; "BOOLEAN"; "INTEGER"; "FLOAT"; "TIME"; "DATE"; "STRING"].
Proof.
  unfold get_parsed_schema_type.
  destruct (for_items type s) as [value|] eqn:E.
  - apply for_items_value in E. simpl in E. simpl.
    intuition (subst; auto 10).
  - simpl. auto 10.
Qed.

Lemma append_cons (x : ascii) (a b : string) :
  (String x a ++ b = String x (a ++ b))%string.
Proof. reflexivity. Qed.

Lemma append_nil (b : string) : ("" ++ b = b)%string.
Proof. reflexivity. Qed.

Lemma append_assoc (a b c : string) : ((a ++ b) ++ c = a ++ (b ++ c))%string.
Proof.
  induction a as [|x a IH]; [reflexivity|].
  now rewrite !append_cons, IH.
Qed.

Lemma occurs_in_extend (key s pre post : string) :
  occurs_in key s -> occurs_in key (pre ++ s ++ post).
Proof.
  intros [a [b ->]]. exists (pre ++ a)%string, (b ++ post)%string.
  now rewrite !append_assoc.
Qed.

Lemma contains_extend (key s pre post : string) :
  contains key s = true -> contains key (pre ++ s ++ post) = true.
Proof. rewrite !contains_occurs. apply occurs_in_extend. Qed.

(** The position of the first item whose key occurs, if any. *)
Lemma for_items_extend (items : list (string * string)) (s pre post value : string) :
  for_items items s = Some value ->
  exists value', for_items items (pre ++ s ++ post) = Some value'.
Proof.
  induction items as [|[k v] items IH]; simpl; [discriminate|].
  destruct (contains k (pre ++ s ++ post)) eqn:E'; [eauto|].
  destruct (contains k s) eqn:E.
  - apply (contains_extend _ _ pre post) in E. congruence.
  - apply IH.
Qed.

(** Text around a type name never hides a timestamp: when an input maps
    to "TIMESTAMP", so does every text that contains this input. *)
Theorem get_parsed_schema_type_timestamp_embedded (s pre post : string) :
  get_parsed_schema_type s = "TIMESTAMP" ->
  get_parsed_schema_type (pre ++ s ++ post) = "TIMESTAMP".
Proof.
  unfold get_parsed_schema_type, type. simpl.
  destruct (contains "datetime" s) eqn:E1.
  - now rewrite (contains_extend _ _ pre post E1).
  - destruct (contains "timestamp" s) eqn:E2.
    + rewrite (contains_extend _ _ pre post E2).
      now destruct (contains "datetime" (pre ++ s ++ post)).
    + repeat match goal with
             | |- context [if contains ?k s then _ else _] =>
                 destruct (contains k s); [discriminate|]
             end.
      discriminate.
Qed.

Lemma get_parsed_schema_type_timestamp_embedded_witness :
  get_parsed_schema_type "created_at datetime64[ns]" = "TIMESTAMP".
Proof.
  exact (get_parsed_schema_type_timestamp_embedded "datetime64" "created_at " "[ns]"
           eq_refl).
Defined.

(** An input that has a match keeps one when text is put around it: it
    never falls back to the default "STRING". *)
Theorem get_parsed_schema_type_match_embedded (s pre post : string) :
  get_parsed_schema_type s <> "STRING" ->
  get_parsed_schema_type (pre ++ s ++ post) <> "STRING".
Proof.
  unfold get_parsed_schema_type.
  destruct (for_items type s) as [v|] eqn:E; [|congruence].
  intros _. destruct (for_items_extend type s pre post v E) as [v' E'].
  rewrite E'. apply for_items_value in E'. simpl in E'.
  intuition (subst; discriminate).
Qed.

Lemma get_parsed_schema_type_match_embedded_witness :
  get_parsed_schema_type "n: nullable_int (64)" <> "STRING".
Proof.
  apply (get_parsed_schema_type_match_embedded "nullable_int" "n: " " (64)").
  discriminate.
Defined.

End SchemaTypeMore.

Module ConfigFilesFacts.
Import SchemaType SchemaTypeFacts SchemaTypeMore ConfigFiles.
Local Open Scope list_scope.

Lemma tree_nested_ind (P : tree -> Prop) :
  (forall filenames dirs,
      (forall dirname sub, In (dirname, Some sub) dirs -> P sub) ->
      P (Node filenames dirs)) ->
  forall t, P t.
Proof.
  intros H. fix IH 1. intros [filenames dirs]. apply H.
  assert (Hall : List.Forall
                   (fun d => match snd d with Some s => P s | None => True end) dirs).
  { induction dirs as [|[n [s|]] dirs IHd]; constructor; simpl; auto. }
  clear IH. intros dirname sub Hin.
  rewrite List.Forall_forall in Hall. exact (Hall _ Hin).
Qed.

Lemma walk_Node (top : string) (filenames : list string)
    (dirs : list (string * option tree)) :
  walk top (Node filenames dirs) =
  (top, map fst dirs, filenames) ::
  flat_map (fun '(dirname, sub) =>
              match sub with
              | Some t => walk (join top dirname) t
              | None => []
              end) dirs.
Proof.
  simpl. f_equal.
  induction dirs as [|[n [s|]] dirs IH]; simpl; [reflexivity| |exact IH].
  now rewrite IH.
Qed.

Section Matching.
Variable fnmatch : string -> string -> bool.

Lemma fold_left_snoc {B C} (g : B -> C) (ys : list B) (acc : list C) :
  fold_left (fun acc y => acc ++ [g y]) ys acc = acc ++ map g ys.
Proof.
  revert acc. induction ys as [|y ys IH]; intros acc; simpl.
  - now rewrite app_nil_r.
  - rewrite IH. now rewrite <- app_assoc.
Qed.

Lemma fold_walk (suffix : string) (l : list (string * list string * list string))
    (acc : list string) :
  fold_left
    (fun matches '(root, _, filenames) =>
       fold_left (fun matches filename => matches ++ [join root filename])
         (fnmatch_filter fnmatch filenames suffix) matches) l acc
  = acc ++ flat_map (fun '(root, _, filenames) =>
                       map (join root) (fnmatch_filter fnmatch filenames suffix)) l.
Proof.
  revert acc. induction l as [|[[root ds] filenames] l IH]; intros acc; simpl.
  - now rewrite app_nil_r.
  - rewrite IH, fold_left_snoc. now rewrite <- app_assoc.
Qed.

Lemma get_dag_yaml_config_files_walk (t : tree) (directory suffix : string) :
  get_dag_yaml_config_files fnmatch (Some t) directory suffix =
  flat_map (fun '(root, _, filenames) =>
              map (join root) (fnmatch_filter fnmatch filenames suffix))
           (walk directory t).
Proof. unfold get_dag_yaml_config_files. now rewrite fold_walk. Qed.

(** The files of a directory come first, in listing order, and then the
    files of each sub-directory, in listing order; a sub-directory that
    is not walked into contributes nothing. *)
Theorem get_dag_yaml_config_files_top_down
    (filenames : list string) (dirs : list (string * option tree))
    (directory suffix : string) :
  get_dag_yaml_config_files fnmatch (Some (Node filenames dirs)) directory suffix =
  (map (join directory) (fnmatch_filter fnmatch filenames suffix) ++
   flat_map (fun '(dirname, sub) =>
               get_dag_yaml_config_files fnmatch sub (join directory dirname) suffix)
            dirs)%list.
Proof.
  rewrite get_dag_yaml_config_files_walk, walk_Node. cbn [flat_map]. f_equal.
  induction dirs as [|[n [s|]] dirs IH]; cbn [flat_map].
  - reflexivity.
  - rewrite flat_map_app, IH, (get_dag_yaml_config_files_walk s). reflexivity.
  - cbn [app]. rewrite IH. reflexivity.
Qed.

Lemma walk_visits (top : string) (t : tree) (root : string)
    (ds filenames : list string) :
  In (root, ds, filenames) (walk top t) -> visits top t root filenames.
Proof.
  revert top. induction t as [fs dirs IH] using tree_nested_ind. intros top Hin.
  rewrite walk_Node in Hin. destruct Hin as [E|Hin].
  - inversion E; subst. constructor.
  - apply in_flat_map in Hin. destruct Hin as [[n [s|]] [Hd Hin]]; [|destruct Hin].
    eapply visits_sub; eauto.
Qed.

Lemma visits_walk (top : string) (t : tree) (root : string) (filenames : list string) :
  visits top t root filenames ->
  exists ds, In (root, ds, filenames) (walk top t).
Proof.
  induction 1 as [top fs dirs | top fs dirs n sub root files Hin Hv [ds IH]].
  - exists (map fst dirs). rewrite walk_Node. now left.
  - exists ds. rewrite walk_Node. right.
    apply in_flat_map. exists (n, Some sub). split; assumption.
Qed.

(** A path is returned exactly when it is the path of a file, in a
    directory the walk comes through, whose name matches the pattern; the
    pattern is matched against the name of the file, not against its
    path. *)
Theorem get_dag_yaml_config_files_spec (t : tree) (directory suffix path : string) :
  In path (get_dag_yaml_config_files fnmatch (Some t) directory suffix) <->
  exists root filenames filename,
    visits directory t root filenames /\
    In filename filenames /\
    fnmatch filename suffix = true /\
    path = join root filename.
Proof.
  rewrite get_dag_yaml_config_files_walk, in_flat_map. split.
  - intros [[[root ds] filenames] [Hw Hin]].
    apply in_map_iff in Hin. destruct Hin as [filename [<- Hf]].
    apply filter_In in Hf. destruct Hf as [Hf Hm].
    exists root, filenames, filename. eauto using walk_visits.
  - intros (root & filenames & filename & Hv & Hf & Hm & ->).
    destruct (visits_walk _ _ _ _ Hv) as [ds Hw].
    exists (root, ds, filenames). split; [exact Hw|].
    apply in_map. apply filter_In. auto.
Qed.

End Matching.

Lemma startswith_refl (a : string) : startswith a a = true.
Proof.
  apply startswith_app. exists EmptyString.
  induction a as [|x a IH]; [reflexivity|]. now rewrite append_cons, <- IH.
Qed.

Lemma startswith_trans (a b c : string) :
  startswith a b = true -> startswith b c = true -> startswith a c = true.
Proof.
  rewrite !startswith_app. intros [p ->] [q ->].
  exists (p ++ q)%string. apply append_assoc.
Qed.

Lemma join_relative (a b : string) :
  startswith "/" b = false -> startswith a (join a b) = true.
Proof.
  intros Hb. unfold join. rewrite Hb. apply startswith_app.
  destruct (String.eqb a "" || ends_with_sep a)%bool; eauto.
Qed.

Lemma relative_names_sub (filenames : list string) (dirs : list (string * option tree))
    (dirname : string) (sub : tree) :
  relative_names (Node filenames dirs) = true ->
  In (dirname, Some sub) dirs ->
  startswith "/" dirname = false /\ relative_names sub = true.
Proof.
  simpl. intros H Hin. apply andb_true_iff in H. destruct H as [_ H].
  induction dirs as [|[n s] dirs IH]; [destruct Hin|].
  apply andb_true_iff in H. destruct H as [H Hrest].
  apply andb_true_iff in H. destruct H as [Hn Hs].
  destruct Hin as [E|Hin]; [|now apply IH].
  inversion E; subst. split; [now apply negb_true_iff in Hn | exact Hs].
Qed.

Lemma visits_under (top : string) (t : tree) (root : string) (filenames : list string) :
  visits top t root filenames ->
  relative_names t = true ->
  startswith top root = true /\
  forall filename, In filename filenames -> startswith "/" filename = false.
Proof.
  induction 1 as [top fs dirs | top fs dirs n sub root files Hin Hv IH]; intros Hrel.
  - split; [apply startswith_refl|].
    simpl in Hrel. apply andb_true_iff in Hrel. destruct Hrel as [Hfs _].
    intros filename Hf. rewrite forallb_forall in Hfs.
    apply Hfs in Hf. now apply negb_true_iff in Hf.
  - destruct (relative_names_sub _ _ _ _ Hrel Hin) as [Hn Hsub].
    destruct (IH Hsub) as [Hp Hfs]. split; [|exact Hfs].
    eapply startswith_trans; [|exact Hp]. now apply join_relative.
Qed.

(** Every path returned lies under the directory asked for: it starts
    with [directory], as long as no name in the tree starts with a
    slash. *)
Theorem get_dag_yaml_config_files_under (fnmatch : string -> string -> bool)
    (t : tree) (directory suffix path : string) :
  relative_names t = true ->
  In path (get_dag_yaml_config_files fnmatch (Some t) directory suffix) ->
  startswith directory path = true.
Proof.
  intros Hrel Hin. rewrite get_dag_yaml_config_files_walk in Hin.
  apply in_flat_map in Hin. destruct Hin as [[[root ds] filenames] [Hw Hin]].
  apply in_map_iff in Hin. destruct Hin as [filename [<- Hf]].
  apply filter_In in Hf. destruct Hf as [Hf _].
  apply walk_visits in Hw.
  destruct (visits_under _ _ _ _ Hw Hrel) as [Hp Hfs].
  eapply startswith_trans; [exact Hp|]. apply join_relative. now apply Hfs.
Qed.

Lemma get_dag_yaml_config_files_under_witness :
  get_dag_yaml_config_files yaml_only (Some dags_tree) "dags" "*.yaml"
    = ["dags/a.yaml"; "dags/team/b.yaml"] /\
  startswith "dags" "dags/team/b.yaml" = true.
Proof.
  split; [reflexivity|].
  apply (get_dag_yaml_config_files_under yaml_only dags_tree "dags" "*.yaml");
    [reflexivity|].
  right. left. reflexivity.
Defined.

End ConfigFilesFacts.

Module VersionFacts.
Import SchemaTypeMore Version.

Lemma length_append (a b : string) :
  String.length (a ++ b) = (String.length a + String.length b)%nat.
Proof.
  induction a as [|x a IH]; [reflexivity|].
  rewrite append_cons. simpl. now rewrite IH.
Qed.

Lemma substring_0_0 (s : string) : String.substring 0 0 s = EmptyString.
Proof. now destruct s. Qed.

Lemma substring_prefix (a b : string) :
  String.substring 0 (String.length a) (a ++ b) = a.
Proof.
  induction a as [|x a IH]; [apply substring_0_0|].
  rewrite append_cons. simpl. now rewrite IH.
Qed.

Lemma substring_short (n : nat) (s : string) :
  (String.length s <= n)%nat -> drop_last n s = EmptyString.
Proof.
  intros H. unfold drop_last.
  replace (String.length s - n)%nat with 0%nat by lia. apply substring_0_0.
Qed.

Lemma drop_last_app (n : nat) (v x : string) :
  String.length x = n -> drop_last n (v ++ x) = v.
Proof.
  intros <-. unfold drop_last. rewrite length_append.
  replace (String.length v + String.length x - String.length x)%nat
    with (String.length v) by lia.
  apply substring_prefix.
Qed.

Lemma split_not_nil (sep : ascii) (s : string) : split sep s <> [].
Proof.
  induction s as [|c s IH]; simpl; [discriminate|].
  destruct (Ascii.eqb c sep); [discriminate|].
  destruct (split sep s); [contradiction | discriminate].
Qed.

Lemma join_split (sep : ascii) (s : string) : join_with sep (split sep s) = s.
Proof.
  induction s as [|c s IH]; [reflexivity|]. simpl.
  pose proof (split_not_nil sep s) as Hne.
  destruct (Ascii.eqb c sep) eqn:E.
  - apply Ascii.eqb_eq in E. subst c.
    destruct (split sep s) as [|p ps]; [contradiction|].
    change (join_with sep (EmptyString :: p :: ps))
      with (EmptyString ++ String sep (join_with sep (p :: ps)))%string.
    now rewrite IH.
  - destruct (split sep s) as [|p ps]; [contradiction|].
    destruct ps as [|p' ps].
    + simpl in *. now rewrite IH.
    + change (join_with sep (String c p :: p' :: ps))
        with (String c p ++ String sep (join_with sep (p' :: ps)))%string.
      change (join_with sep (p :: p' :: ps))
        with (p ++ String sep (join_with sep (p' :: ps)))%string in IH.
      now rewrite append_cons, IH.
Qed.

(** The constant drops the last nine characters of the version, whatever
    they are, and splits the rest at the dots: for a version [v] followed
    by nine characters such as "+composer", the parts are those of [v],
    and joined by dots they give [v] back. *)
Theorem AIRFLOW_VERSION_parts (v suffix : string) :
  String.length suffix = 9%nat ->
  AIRFLOW_VERSION (v ++ suffix) = split "." v /\
  join_with "." (AIRFLOW_VERSION (v ++ suffix)) = v.
Proof.
  intros H. unfold AIRFLOW_VERSION.
  rewrite (drop_last_app _ v suffix) by exact H.
  split; [reflexivity | apply join_split].
Qed.

Lemma AIRFLOW_VERSION_parts_witness :
  AIRFLOW_VERSION "2.3.4+composer" = ["2"; "3"; "4"] /\
  join_with "." (AIRFLOW_VERSION "2.3.4+composer") = "2.3.4".
Proof.
  exact (AIRFLOW_VERSION_parts "2.3.4" "+composer" eq_refl).
Defined.

(** A version of nine characters or fewer, such as "2.3.4" without the
    Composer suffix, leaves one empty part. *)
Theorem AIRFLOW_VERSION_short (airflow_version : string) :
  (String.length airflow_version <= 9)%nat ->
  AIRFLOW_VERSION airflow_version = [EmptyString].
Proof.
  intros H. unfold AIRFLOW_VERSION.
  now rewrite (substring_short (String.length "+composer") airflow_version H).
Qed.

Lemma AIRFLOW_VERSION_short_witness :
  AIRFLOW_VERSION "2.3.4" = [EmptyString].
Proof.
  apply AIRFLOW_VERSION_short. vm_compute. lia.
Defined.

End VersionFacts.

Module CleanupFacts.
Import Store Maintenance Retention Examples Reporting QueryFacts ProtectionFacts
  SessionFacts TaskFacts IdempotenceFacts RunFacts.
Local Open Scope list_scope.

Lemma query_of_is_of_category (params : db_object) (max_date : Z) :
  query_of_category params max_date (query_of params max_date).
Proof. split; [apply query_of_entity | auto]. Qed.

Lemma partition_query_is_of_category (params : db_object) (max_date : Z)
    (dag : option string) :
  query_of_category params max_date (partition_query params max_date dag).
Proof.
  split; [apply partition_query_entity|].
  intros d r. apply partition_matches_query.
Qed.

Section Scoped.
Context (I : state -> Prop) (params : db_object) (max_date : Z).

(** [I] does not look at the log, survives a commit and survives the
    [DELETE] of a query of the category. *)
Hypothesis I_log : forall s l m,
  I s -> I (State (committed s) (working s) (log s ++ [(l, m)])).
Hypothesis I_commit : forall s,
  I s -> I (State (working s) (working s) (log s)).
Hypothesis I_delete : forall s q,
  query_of_category params max_date q ->
  I s -> I (State (committed s) (delete_rows (working s) q) (log s)).

Lemma process_scoped print enable (fault : storage) (q : query) :
  query_of_category params max_date q ->
  preserves I (process print enable fault q params).
Proof.
  intros Hq. unfold process.
  apply preserves_bind; [|intros _; apply preserves_bind; [|intros _]].
  - apply preserves_when, print_query_closed. exact I_log.
  - apply preserves_when.
    apply preserves_bind; [now apply logging_closed|intros _].
    unfold query_delete.
    apply preserves_bind; [apply preserves_execute|intros _].
    intros s Hs. now apply I_delete.
  - now apply commit_closed.
Qed.

Lemma cleanup_body_scoped print enable (fault : storage) :
  preserves I (cleanup_body print enable fault params max_date).
Proof.
  unfold cleanup_body.
  apply preserves_bind; [|intros _; apply preserves_bind; [|intros _]].
  - destruct (do_not_delete_by_dag_id params).
    + apply process_scoped, query_of_is_of_category.
    + apply preserves_bind;
        [|intros _; apply preserves_bind;
          [|intros _; apply preserves_bind; [|intros dags]]].
      * destruct (has_dag_id _); [apply preserves_ret | apply preserves_raise].
      * now apply commit_closed.
      * unfold distinct_dag_ids. apply preserves_bind; [apply preserves_execute|].
        intros _. apply preserves_gets.
      * apply preserves_for_each. intros dag _.
        apply process_scoped, partition_query_is_of_category.
  - apply preserves_when. now apply logging_closed.
  - now apply logging_closed.
Qed.

Lemma run_task_scoped print enable (fault : storage) (d : db) :
  (forall s, I s -> I (State (committed s) (committed s) (log s))) ->
  I (State d d []) ->
  I (snd (cleanup_function print enable fault params max_date (State d d []))).
Proof.
  intros Hc H0.
  apply (cleanup_function_preserves I); auto.
  - apply cleanup_body_scoped.
  - intros e. now apply cleanup_except_closed.
Qed.

End Scoped.

Lemma filter_sublist {A} (f : A -> bool) (l : list A) : List.filter f l `sublist_of` l.
Proof.
  induction l as [|x l IH]; simpl; [constructor|].
  destruct (f x); [now apply sublist_skip | now apply sublist_cons].
Qed.

Lemma delete_rows_lookup_ne (d : db) (q : query) (t : string) :
  t <> tablename (q_entity q) -> delete_rows d q !! t = d !! t.
Proof.
  intros Hne. unfold delete_rows.
  destruct (d !! tablename (q_entity q)); [|reflexivity].
  now rewrite lookup_insert_ne.
Qed.

Lemma table_delete_rows_own (d : db) (q : query) :
  table (delete_rows d q) (q_entity q) =
  List.filter (fun r => negb (matches d q r)) (table d (q_entity q)).
Proof. rewrite table_delete_rows. now rewrite decide_True. Qed.

(** A cleanup task never adds a row to the table of its model and never
    changes one: what is left of the table is the rows it had, in their
    order, with some of them removed.  This holds for every setting of
    the switches and every answer of the storage layer. *)
Theorem own_table_only_loses_rows (print enable : bool)
    (fault : storage) (params : db_object) (max_date : Z) (d : db) :
  table (snd (run_task print enable fault params max_date d)) (airflow_db_model params)
    `sublist_of` table d (airflow_db_model params).
Proof.
  rewrite run_task_store.
  set (m := airflow_db_model params).
  set (I := fun s : state =>
              table (committed s) m `sublist_of` table d m /\
              table (working s) m `sublist_of` table d m).
  assert (H : I (snd (cleanup_function print enable fault params max_date
                        (State d d [])))).
  { apply (run_task_scoped I params max_date).
    - intros s l msg Hs. exact Hs.
    - intros s [_ Hw]. split; exact Hw.
    - intros s q [Hent _] [Hc Hsub]. split; [exact Hc|]. simpl.
      fold m in Hent. rewrite <- Hent, table_delete_rows_own, Hent.
      etransitivity; [apply filter_sublist | exact Hsub].
    - intros s [Hc _]. split; exact Hc.
    - split; reflexivity. }
  exact (proj1 H).
Qed.

Lemma matches_old (d : db) (params : db_object) (max_date : Z) (r : row) :
  matches d (query_of params max_date) r = true -> old params max_date r = true.
Proof.
  destruct (keep_last params) eqn:Hk.
  - rewrite matches_keep_last by exact Hk. intros H.
    now apply andb_true_iff in H.
  - now rewrite matches_no_keep_last.
Qed.

(** A cleanup task never deletes a row that is not old: a row of the
    table whose age-check value is later than the cutoff, or is NULL, is
    still in the table after the task, whatever the switches and the
    answers of the storage layer. *)
Theorem younger_rows_survive (print enable : bool)
    (fault : storage) (params : db_object) (max_date : Z)
    (d : db) (r : row) :
  r ∈ table d (airflow_db_model params) ->
  old params max_date r = false ->
  r ∈ table (snd (run_task print enable fault params max_date d))
        (airflow_db_model params).
Proof.
  intros Hr Hyoung. rewrite run_task_store.
  set (m := airflow_db_model params).
  set (I := fun s : state => r ∈ table (committed s) m /\ r ∈ table (working s) m).
  assert (H : I (snd (cleanup_function print enable fault params max_date
                        (State d d [])))).
  { apply (run_task_scoped I params max_date).
    - intros s l msg Hs. exact Hs.
    - intros s [_ Hw]. split; exact Hw.
    - intros s q [Hent Himp] [Hc Hw]. split; [exact Hc|]. simpl.
      fold m in Hent. rewrite <- Hent, table_delete_rows_own, Hent.
      apply elem_of_filter_list. split; [exact Hw|].
      apply negb_true_iff. destruct (matches (working s) q r) eqn:E; [|reflexivity].
      apply Himp, matches_old in E. congruence.
    - intros s [Hc _]. split; exact Hc.
    - split; exact Hr. }
  exact (proj1 H).
Qed.

Lemma younger_rows_survive_witness :
  job_row (Some "X") (VTime 500)
    ∈ table (snd (run_task false true no_fault jobs 100 store_jobs)) BaseJob /\
  job_row None VNull
    ∈ table (snd (run_task false true no_fault jobs 100 store_jobs)) BaseJob /\
  table (snd (run_task false true no_fault jobs 100 store_jobs)) BaseJob
    = [job_row (Some "X") (VTime 500); job_row None VNull].
Proof.
  split; [|split; [|reflexivity]].
  - apply (younger_rows_survive false true no_fault jobs 100 store_jobs);
      [|reflexivity].
    apply list_elem_of_In. right. left. reflexivity.
  - apply (younger_rows_survive false true no_fault jobs 100 store_jobs);
      [|reflexivity].
    apply list_elem_of_In. right. right. left. reflexivity.
Defined.

Lemma filter_true {A} (l : list A) : List.filter (fun _ => true) l = l.
Proof. induction l as [|x l IH]; simpl; [reflexivity | now rewrite IH]. Qed.

Lemma filter_all_false {A} (f : A -> bool) (l : list A) :
  (forall x, x ∈ l -> f x = false) -> List.filter f l = [].
Proof.
  induction l as [|x l IH]; intros H; simpl; [reflexivity|].
  rewrite (H x) by now left. apply IH. intros y Hy. apply H. now right.
Qed.

Lemma filter_filter_andb {A} (f g : A -> bool) (l : list A) :
  List.filter f (List.filter g l) = List.filter (fun x => g x && f x) l.
Proof.
  induction l as [|x l IH]; simpl; [reflexivity|].
  destruct (g x); simpl; [destruct (f x)|]; now rewrite IH.
Qed.

(** The newest value of a group of the run table is among the protected
    values. *)
Lemma newest_value_protected (d : db) (category : db_object) (r : row) (t : Z) :
  r ∈ table d DagRun ->
  passes (default [] (keep_last_filters category)) r = true ->
  row_get r DagRun_execution_date = VTime t ->
  newest (group_of category d r) t ->
  VTime t ∈ eval_subquery d (protected_runs category).
Proof.
  intros Hr Hp Ht Hnew.
  unfold eval_subquery, group_maxima, protected_runs; simpl.
  unfold group_of, newest in Hnew.
  set (fs := default [] (keep_last_filters category)) in *.
  assert (HrF : r ∈ List.filter (passes fs) (table d DagRun))
    by (apply elem_of_filter_list; auto).
  destruct (keep_last_group_by category) as [g|].
  - apply elem_of_map_list. exists (row_get r g). split.
    + apply (max_agg_rows _ _ r); auto.
      apply elem_of_filter_list. split; [exact HrF | now apply bool_decide_eq_true].
    + apply elem_of_remove_dups. apply elem_of_map_list. eauto.
  - rewrite filter_true in Hnew. apply list_elem_of_singleton.
    symmetry. apply (max_agg_rows _ _ r); auto.
Qed.

(** The newest run of each group survives a whole cleanup task of a
    keep-last category keyed on the execution date of the run table: a
    run that passes the filters and carries the newest execution date of
    its group is still in the table after the task, whatever the cutoff,
    the switches and the answers of the storage layer. *)
Theorem newest_run_survives (print enable : bool)
    (fault : storage) (category : db_object) (max_date : Z)
    (d : db) (r : row) (t : Z) :
  keep_last category = true ->
  airflow_db_model category = DagRun ->
  age_check_column category = DagRun_execution_date ->
  r ∈ table d DagRun ->
  passes (default [] (keep_last_filters category)) r = true ->
  row_get r DagRun_execution_date = VTime t ->
  newest (group_of category d r) t ->
  r ∈ table (snd (run_task print enable fault category max_date d)) DagRun.
Proof.
  intros Hk Hm Hage Hr Hp Ht Hnew. rewrite run_task_store.
  assert (Hkeyed : keyed_on_execution_date category) by (intros _ _; exact Hage).
  assert (Hsafe : matches d (query_of category max_date) r = false).
  { rewrite matches_keep_last by exact Hk. rewrite Hage, Ht.
    rewrite not_in_elem; [reflexivity|]. now apply (newest_value_protected d category r t). }
  set (I := fun s : state =>
              (r ∈ table (committed s) DagRun /\
               forall r', matches (committed s) (query_of category max_date) r'
                          = matches d (query_of category max_date) r') /\
              (r ∈ table (working s) DagRun /\
               forall r', matches (working s) (query_of category max_date) r'
                          = matches d (query_of category max_date) r')).
  assert (H : I (snd (cleanup_function print enable fault category max_date
                        (State d d [])))).
  { apply (run_task_scoped I category max_date).
    - intros s l msg Hs. exact Hs.
    - intros s [_ Hw]. split; exact Hw.
    - intros s q [Hent Himp] [Hc [Hw Hst]]. split; [exact Hc|]. simpl. split.
      + rewrite <- Hm, <- Hent, table_delete_rows_own, Hent, Hm.
        apply elem_of_filter_list. split; [exact Hw|].
        apply negb_true_iff.
        destruct (matches (working s) q r) eqn:E; [|reflexivity].
        apply Himp in E. rewrite Hst in E. congruence.
      + intros r'. rewrite matches_stable; auto.
    - intros s [Hc _]. split; exact Hc.
    - split; split; auto. }
  exact (proj1 (proj1 H)).
Qed.

Lemma newest_run_survives_witness :
  run_row (Some "Y") 9 false
    ∈ table (snd (run_task false true no_fault dag_runs 100 store_tied_runs)) DagRun.
Proof.
  apply (newest_run_survives false true no_fault dag_runs 100 store_tied_runs _ 9);
    try reflexivity.
  - apply list_elem_of_In. right. right. left. reflexivity.
  - intros r' t' Hr' Ht'. apply list_elem_of_In in Hr'.
    vm_compute in Hr'. destruct Hr' as [<-|[]].
    vm_compute in Ht'. inversion Ht'. lia.
Defined.

Lemma forallb_pointwise {A} (f g : A -> bool) (l : list A) :
  (forall x, f x = g x) -> forallb f l = forallb g l.
Proof.
  intros H. induction l as [|x l IH]; simpl; [reflexivity|]. now rewrite H, IH.
Qed.

(** Deleting partition by partition comes to one [DELETE] of the query
    of the category on the store the loop started from. *)
Lemma delete_partitions_filter (params : db_object) (max_date : Z)
    (dags : list (option string)) (d : db) (rows : list row) :
  keyed_on_execution_date params ->
  d !! tablename (airflow_db_model params) = Some rows ->
  delete_partitions params max_date dags d =
  <[tablename (airflow_db_model params) :=
      List.filter
        (fun r => forallb
                    (fun k => negb (matches d (query_of params max_date) r
                                    && in_partition (airflow_db_model params) k r))
                    dags) rows]> d.
Proof.
  intros Hkeyed. revert d rows.
  induction dags as [|dag dags IH]; intros d rows Hrows.
  - simpl. rewrite filter_true. symmetry. now apply insert_id.
  - rewrite delete_partitions_cons.
    set (q := partition_query params max_date dag).
    assert (Hd1 : delete_rows d q =
                  <[tablename (airflow_db_model params) :=
                      List.filter (fun r => negb (matches d q r)) rows]> d).
    { unfold delete_rows, q. rewrite partition_query_entity, Hrows. reflexivity. }
    rewrite (IH (delete_rows d q) (List.filter (fun r => negb (matches d q r)) rows)).
    2:{ rewrite Hd1. apply lookup_insert_eq. }
    match goal with
    | |- <[_ := ?rows1]> _ = _ => set (left := rows1)
    end.
    rewrite Hd1, insert_insert_eq. subst left. f_equal.
    rewrite filter_filter_andb. apply List.filter_ext. intros r. simpl.
    unfold q at 1. rewrite matches_partition. f_equal.
    apply forallb_pointwise. intros k.
    rewrite matches_stable;
      [reflexivity | exact Hkeyed | apply partition_query_entity
       | intros r'; apply partition_matches_query].
Qed.

Lemma lookup_of_missing (d : db) (params : db_object) (max_date : Z) :
  missing_table d (query_tables (query_of params max_date)) = None ->
  exists rows, d !! tablename (airflow_db_model params) = Some rows.
Proof.
  intros Hm. destruct (query_tables_head params max_date) as [rest Hr].
  rewrite Hr in Hm. apply missing_table_tail in Hm.
  unfold missing_table in Hm. simpl in Hm.
  destruct (d !! tablename (airflow_db_model params)) as [rows|] eqn:E; [eauto|].
  rewrite bool_decide_eq_true_2 in Hm by reflexivity. discriminate.
Qed.

(** The loop over the partitions of a store deletes what one [DELETE]
    of the query of the category deletes. *)
Lemma delete_partitions_is_global (params : db_object) (max_date : Z) (d : db) :
  keyed_on_execution_date params ->
  missing_table d (query_tables (query_of params max_date)) = None ->
  delete_partitions params max_date (partitions d (airflow_db_model params)) d
  = delete_rows d (query_of params max_date).
Proof.
  intros Hkeyed Hm. destruct (lookup_of_missing d params max_date Hm) as [rows Hrows].
  rewrite (delete_partitions_filter params max_date _ d rows Hkeyed Hrows).
  unfold delete_rows. rewrite query_of_entity, Hrows. f_equal.
  apply List.filter_ext_in. intros r Hr.
  assert (Hin : row_dag_id r ∈ partitions d (airflow_db_model params)).
  { apply partitions_cover. unfold table. rewrite Hrows. simpl.
    now apply list_elem_of_In. }
  destruct (matches d (query_of params max_date) r); simpl.
  - destruct (forallb _ _) eqn:E; [|reflexivity].
    rewrite forallb_forall in E.
    specialize (E (row_dag_id r) (proj1 (list_elem_of_In _ _) Hin)).
    rewrite (proj2 (in_partition_spec (airflow_db_model params) (row_dag_id r) r) eq_refl)
      in E.
    discriminate.
  - apply forallb_forall. reflexivity.
Qed.

Lemma table_delete_query_of (d : db) (params : db_object) (max_date : Z) :
  table (delete_rows d (query_of params max_date)) (airflow_db_model params) =
  List.filter (fun r => negb (matches d (query_of params max_date) r))
    (table d (airflow_db_model params)).
Proof.
  rewrite table_delete_rows, query_of_entity. now rewrite decide_True.
Qed.

Lemma run_task_enabled_global (print : bool) (params : db_object) (max_date : Z) (d : db) :
  keyed_on_execution_date params ->
  partitionable params = true ->
  missing_table d (query_tables (query_of params max_date)) = None ->
  snd (run_task print true no_fault params max_date d)
  = delete_rows d (query_of params max_date).
Proof.
  intros Hkeyed Hpart Hm. rewrite run_task_enabled_store by assumption.
  destruct (do_not_delete_by_dag_id params); [reflexivity|].
  now apply delete_partitions_is_global.
Qed.



(** ** What [print_query] reports *)

Lemma entries_app (a b : list (level * message)) :
  entries (a ++ b) = entries a ++ entries b.
Proof.
  induction a as [|[l m] a IH]; simpl; [reflexivity|].
  destruct m; simpl; now rewrite IH.
Qed.

Lemma entries_map_entry (date : row -> value) (rows : list row) :
  entries (map (fun entry => (INFO, MsgEntry entry (date entry))) rows) = rows.
Proof.
  induction rows as [|r rows IH]; simpl; [reflexivity | now rewrite IH].
Qed.

Lemma entries_report (m : model) (age : column) (rows : list row) :
  entries (report m age rows) = rows.
Proof.
  unfold report. simpl. rewrite entries_app, entries_map_entry. simpl.
  now rewrite app_nil_r.
Qed.

Lemma entries_flat_map_report {A} (m : model) (age : column)
    (f : A -> list row) (l : list A) :
  entries (flat_map (fun x => report m age (f x)) l) = flat_map f l.
Proof.
  induction l as [|x l IH]; cbn [flat_map]; [reflexivity|].
  now rewrite entries_app, entries_report, IH.
Qed.

Lemma for_each_logging_log {A} (l : list A) (f : A -> message) (s : state) :
  for_each l (fun e => logging INFO (f e)) s =
  (Return tt,
   State (committed s) (working s) (log s ++ map (fun e => (INFO, f e)) l)).
Proof.
  revert s. induction l as [|e l IH]; intros s; simpl.
  - now rewrite app_nil_r, state_eta.
  - erewrite bind_Return by reflexivity. rewrite IH. simpl.
    now rewrite <- app_assoc.
Qed.

(** [print_query] logs the heading, one line per selected row, in the
    order of the table, and their number; it changes nothing in the
    store. *)
Lemma print_query_report (q : query) (m : model) (age : column) (s : state) :
  missing_table (working s) (query_tables q) = None ->
  print_query no_fault q m age s =
  (Return tt,
   State (committed s) (working s)
         (log s ++ report m age (select_rows (working s) q))).
Proof.
  intros Hm. unfold print_query, query_all.
  erewrite bind_Return;
    [|erewrite bind_Return by (now apply execute_ok); reflexivity].
  erewrite bind_Return by reflexivity.
  erewrite bind_Return by apply for_each_logging_log.
  unfold logging, report. simpl. f_equal. f_equal.
  rewrite <- !app_assoc. reflexivity.
Qed.

(** One partition of a dry run with the report switched on. *)
Lemma process_preview (q : query) (params : db_object) (s : state) :
  missing_table (working s) (query_tables q) = None ->
  process true false no_fault q params s =
  (Return tt,
   State (working s) (working s)
         (log s ++ report (airflow_db_model params) (age_check_column params)
                     (select_rows (working s) q))).
Proof.
  intros Hm. unfold process.
  erewrite bind_Return by (now apply print_query_report).
  erewrite bind_Return by reflexivity. reflexivity.
Qed.

Lemma for_each_preview (params : db_object) (max_date : Z)
    (dags : list (option string)) (d : db) (lg : list (level * message)) :
  missing_table d (query_tables (query_of params max_date)) = None ->
  for_each dags
    (fun dag => process true false no_fault (partition_query params max_date dag) params)
    (State d d lg)
  = (Return tt,
     State d d
       (lg ++ flat_map
                (fun dag => report (airflow_db_model params) (age_check_column params)
                              (select_rows d (partition_query params max_date dag)))
                dags)).
Proof.
  intros Hm. revert lg. induction dags as [|dag dags IH]; intros lg; simpl.
  - now rewrite app_nil_r.
  - erewrite bind_Return.
    2:{ apply process_preview. cbn [working]. now rewrite partition_query_tables. }
    simpl. rewrite IH. now rewrite <- app_assoc.
Qed.

(** The rows a dry run lists. *)
Lemma preview_entries (params : db_object) (max_date : Z) (d : db) :
  partitionable params = true ->
  missing_table d (query_tables (query_of params max_date)) = None ->
  entries (snd (fst (run_task true false no_fault params max_date d))) =
  if do_not_delete_by_dag_id params
  then select_rows d (query_of params max_date)
  else flat_map (fun dag => select_rows d (partition_query params max_date dag))
         (partitions d (airflow_db_model params)).
Proof.
  intros Hpart Hm. rewrite run_task_log.
  unfold partitionable in Hpart.
  destruct (do_not_delete_by_dag_id params) eqn:Hscoped; simpl in Hpart.
  - erewrite cleanup_function_Return.
    2:{ unfold cleanup_body. rewrite Hscoped.
        erewrite bind_Return by (now apply process_preview).
        erewrite bind_Return by reflexivity. reflexivity. }
    simpl. rewrite !entries_app, entries_map_entry. simpl. now rewrite !app_nil_r.
  - erewrite cleanup_function_Return.
    2:{ unfold cleanup_body. rewrite Hscoped, Hpart.
        erewrite bind_Return.
        2:{ erewrite bind_Return by reflexivity.
            erewrite bind_Return by reflexivity.
            erewrite bind_Return.
            2:{ apply distinct_dag_ids_ok; [reflexivity|].
                destruct (query_tables_head params max_date) as [rest Hr].
                rewrite Hr in Hm. now apply missing_table_tail in Hm. }
            apply (for_each_preview params max_date _ d []). exact Hm. }
        erewrite bind_Return by reflexivity. reflexivity. }
    simpl. rewrite !entries_app, entries_flat_map_report. simpl.
    now rewrite !app_nil_r.
Qed.

(** The dry run is a faithful preview: with the report switched on and
    the deletion switched off, the rows the task lists as about to be
    deleted are exactly the rows of the table that the task removes when
    it is run on the same store with the deletion switched on.  For the
    categories whose keep-last subquery reads the column they are keyed
    on, with no failure of the storage layer. *)
Theorem dry_run_previews_deletion (params : db_object) (max_date : Z) (d : db) (r : row) :
  keyed_on_execution_date params ->
  partitionable params = true ->
  missing_table d (query_tables (query_of params max_date)) = None ->
  r ∈ entries (snd (fst (run_task true false no_fault params max_date d))) <->
  r ∈ table d (airflow_db_model params) /\
  r ∉ table (snd (run_task false true no_fault params max_date d))
        (airflow_db_model params).
Proof.
  intros Hkeyed Hpart Hm.
  rewrite preview_entries by assumption.
  rewrite run_task_enabled_global by assumption.
  rewrite table_delete_query_of, elem_of_filter_list.
  assert (Hsel : r ∈ table d (airflow_db_model params) /\
                 matches d (query_of params max_date) r = true <->
                 r ∈ table d (airflow_db_model params) /\
                 ~ (r ∈ table d (airflow_db_model params) /\
                    negb (matches d (query_of params max_date) r) = true)).
  { destruct (matches d (query_of params max_date) r); simpl; split.
    - intros [Hr _]. split; [exact Hr|]. intros [_ H]. discriminate.
    - intros [Hr _]. auto.
    - intros [_ H]. discriminate.
    - intros [Hr H]. exfalso. apply H. auto. }
  rewrite <- Hsel. clear Hsel.
  destruct (do_not_delete_by_dag_id params).
  - unfold select_rows. rewrite query_of_entity. apply elem_of_filter_list.
  - rewrite list_elem_of_In, in_flat_map. split.
    + intros [dag [_ Hin]]. apply list_elem_of_In in Hin.
      unfold select_rows in Hin. rewrite partition_query_entity in Hin.
      apply elem_of_filter_list in Hin. destruct Hin as [Hr Hmatch].
      split; [exact Hr | now apply partition_matches_query in Hmatch].
    + intros [Hr Hmatch]. exists (row_dag_id r). split.
      * apply list_elem_of_In. now apply partitions_cover.
      * apply list_elem_of_In. unfold select_rows.
        rewrite partition_query_entity. apply elem_of_filter_list.
        split; [exact Hr|]. rewrite matches_partition, Hmatch. simpl.
        now apply in_partition_spec.
Qed.

Lemma dry_run_previews_deletion_witness :
  entries (snd (fst (run_task true false no_fault dag_runs 100 store_tied_runs)))
    = [run_row (Some "X") 5 false] /\
  (run_row (Some "X") 5 false ∈ table store_tied_runs DagRun /\
   run_row (Some "X") 5 false
     ∉ table (snd (run_task false true no_fault dag_runs 100 store_tied_runs)) DagRun).
Proof.
  split; [reflexivity|].
  apply (dry_run_previews_deletion dag_runs 100 store_tied_runs);
    [intros _ _; reflexivity | reflexivity | reflexivity |].
  apply list_elem_of_In. left. reflexivity.
Defined.

(** ** Keep-last with nothing to protect *)

(** Without group-by, a keep-last query selects nothing at all when no
    run passes the filters with an execution date: the subquery then
    returns the one value NULL, and [NOT IN (NULL)] holds for no row.
    Nothing is deleted, however old the rows are. *)
Theorem keep_last_ungrouped_without_runs (d : db) (category : db_object) (cutoff : Z) :
  keep_last category = true ->
  keep_last_group_by category = None ->
  (forall r t, r ∈ table d DagRun ->
               passes (default [] (keep_last_filters category)) r = true ->
               row_get r DagRun_execution_date <> VTime t) ->
  select_rows d (query_of category cutoff) = [].
Proof.
  intros Hk Hg Hnone. unfold select_rows. apply filter_all_false. intros r _.
  rewrite matches_keep_last by exact Hk.
  assert (HP : eval_subquery d (protected_runs category) = [VNull]).
  { unfold eval_subquery, group_maxima, protected_runs; simpl. rewrite Hg.
    destruct (max_agg_shape
                (map (fun r => row_get r DagRun_execution_date)
                   (List.filter (passes (default [] (keep_last_filters category)))
                      (table d DagRun)))) as [E|[a E]]; [now rewrite E|].
    exfalso. apply max_agg_elem in E. apply elem_of_map_list in E.
    destruct E as [r0 [E Hr0]]. apply elem_of_filter_list in Hr0.
    destruct Hr0 as [Hr0 Hp0]. exact (Hnone r0 a Hr0 Hp0 E). }
  rewrite HP.
  assert (Hno : holds (not_in (row_get r (age_check_column category)) [VNull]) = false).
  { destruct (holds (not_in (row_get r (age_check_column category)) [VNull])) eqn:E;
      [|reflexivity].
    apply not_in_holds in E. destruct E as [E|(_ & _ & E)]; [discriminate|].
    exfalso. apply E. now left. }
  now rewrite Hno.
Qed.

Lemma keep_last_ungrouped_without_runs_witness :
  select_rows store_external_runs (query_of dag_runs_internal_ungrouped 100) = [] /\
  table store_external_runs DagRun
    = [run_row (Some "X") 5 true; run_row (Some "X") 9 true].
Proof.
  split; [|reflexivity].
  apply keep_last_ungrouped_without_runs; try reflexivity.
  intros r t Hr Hp. apply list_elem_of_In in Hr.
  destruct Hr as [<-|[<-|[]]]; vm_compute in Hp; discriminate.
Defined.

(** With group-by, a keep-last query protects nothing when no run passes
    the filters: the subquery returns no row, and every old row of the
    table is selected, the newest one included. *)
Theorem keep_last_grouped_without_runs (d : db) (category : db_object)
    (cutoff : Z) (g : column) :
  keep_last category = true ->
  keep_last_group_by category = Some g ->
  (forall r, r ∈ table d DagRun ->
             passes (default [] (keep_last_filters category)) r = false) ->
  select_rows d (query_of category cutoff) =
  List.filter (old category cutoff) (table d (airflow_db_model category)).
Proof.
  intros Hk Hg Hnone. unfold select_rows. rewrite query_of_entity.
  apply List.filter_ext. intros r.
  rewrite matches_keep_last by exact Hk.
  assert (HP : eval_subquery d (protected_runs category) = []).
  { unfold eval_subquery, group_maxima, protected_runs; simpl. rewrite Hg.
    rewrite (filter_all_false _ _ Hnone). reflexivity. }
  rewrite HP. reflexivity.
Qed.

Lemma keep_last_grouped_without_runs_witness :
  select_rows store_external_runs (query_of dag_runs 100)
    = [run_row (Some "X") 5 true; run_row (Some "X") 9 true].
Proof.
  refine (eq_trans
            (keep_last_grouped_without_runs store_external_runs dag_runs 100
               DagRun_dag_id eq_refl eq_refl _) eq_refl).
  intros r Hr. apply list_elem_of_In in Hr.
  destruct Hr as [<-|[<-|[]]]; reflexivity.
Defined.

End CleanupFacts.

Module CutoffFacts.
Import Store Maintenance Retention ConfigurationFacts.

Lemma max_db_entry_age_positive (default : Z) (conf : option (gmap string Z)) :
  1 <= default -> 1 <= max_db_entry_age default conf.
Proof.
  intros Hd. rewrite max_db_entry_age_requested.
  destruct (conf ≫= _) as [n|]; [|exact Hd].
  destruct (n <? 1) eqn:E; [exact Hd|]. apply Z.ltb_ge in E. exact E.
Qed.

(** Whenever the default is at least one day, the cutoff that the
    configuration step hands on lies at least one day before the clock,
    whatever was requested, and it is a [datetime]; the only error the
    step can raise from its arithmetic is [OverflowError]. *)
Theorem cutoff_at_least_a_day_back (default now : Z) (conf : option (gmap string Z)) :
  1 <= default ->
  match print_configuration_function default now conf with
  | Return cutoff => cutoff <= now - us_per_day /\ 0 <= cutoff < max_datetime
  | Raise e => e = OverflowError
  end.
Proof.
  intros Hd. pose proof (max_db_entry_age_positive default conf Hd) as Hpos.
  unfold print_configuration_function, timedelta, datetime_add.
  set (days := max_db_entry_age default conf) in *.
  destruct (Z.abs (- days) <=? 999999999); [|reflexivity].
  destruct (0 <=? now + - days * us_per_day) eqn:E1; simpl; [|reflexivity].
  destruct (now + - days * us_per_day <? max_datetime) eqn:E2; simpl; [|reflexivity].
  apply Z.leb_le in E1. apply Z.ltb_lt in E2.
  unfold us_per_day in *. lia.
Qed.

Lemma cutoff_at_least_a_day_back_witness :
  match print_configuration_function 30 (738000 * us_per_day)
          (Some (<["maxDBEntryAgeInDays" := 0]> ∅)) with
  | Return cutoff =>
      cutoff <= 738000 * us_per_day - us_per_day /\ 0 <= cutoff < max_datetime
  | Raise e => e = OverflowError
  end.
Proof.
  apply (cutoff_at_least_a_day_back 30 (738000 * us_per_day)). lia.
Defined.

End CutoffFacts.

Module OrderFacts.
Import Store Maintenance Retention Examples Reporting QueryFacts ProtectionFacts
  SessionFacts TaskFacts IdempotenceFacts RunFacts CleanupFacts.
Local Open Scope list_scope.

(** A [DELETE] that names a table the store lacks changes nothing. *)
Lemma query_delete_missing (d : db) (q : query) :
  missing_table d (query_tables q) <> None ->
  preserves (store_is d) (query_delete no_fault q).
Proof.
  intros Hm s [Hc Hw]. unfold query_delete.
  destruct (missing_table d (query_tables q)) as [t|] eqn:E; [|contradiction].
  erewrite bind_Raise; [|apply execute_missing; rewrite Hw; exact E].
  split; assumption.
Qed.

Lemma process_missing_store (d : db) print enable (q : query) (params : db_object) :
  missing_table d (query_tables q) <> None ->
  preserves (store_is d) (process print enable no_fault q params).
Proof.
  intros Hm. unfold process.
  apply preserves_bind; [|intros _; apply preserves_bind; [|intros _]].
  - apply preserves_when, print_query_closed. intros s l m Hs. exact Hs.
  - apply preserves_when. apply preserves_bind; [|intros _].
    + intros s Hs. exact Hs.
    + now apply query_delete_missing.
  - intros s [_ Hw]. split; exact Hw.
Qed.

(** The store is left as it is when a table that the query of the
    category names does not exist. *)
Lemma run_task_missing_store print enable (params : db_object) (max_date : Z) (d : db) :
  missing_table d (query_tables (query_of params max_date)) <> None ->
  snd (run_task print enable no_fault params max_date d) = d.
Proof.
  intros Hm. rewrite run_task_store.
  assert (H : store_is d (snd (cleanup_function print enable no_fault params max_date
                                 (State d d [])))).
  { apply (cleanup_function_preserves (store_is d)).
    - intros s [Hc _]. split; exact Hc.
    - intros s [Hc _]. split; exact Hc.
    - unfold cleanup_body.
      apply preserves_bind; [|intros _; apply preserves_bind; [|intros _]].
      + destruct (do_not_delete_by_dag_id params).
        * now apply process_missing_store.
        * apply preserves_bind;
            [|intros _; apply preserves_bind;
              [|intros _; apply preserves_bind; [|intros dags]]].
          -- destruct (has_dag_id _); [apply preserves_ret | apply preserves_raise].
          -- intros s [_ Hw]. split; exact Hw.
          -- unfold distinct_dag_ids. apply preserves_bind; [apply preserves_execute|].
             intros _. apply preserves_gets.
          -- apply preserves_for_each. intros dag _.
             apply process_missing_store. now rewrite partition_query_tables.
      + apply preserves_when. intros s Hs. exact Hs.
      + intros s Hs. exact Hs.
    - intros e. apply cleanup_except_closed. intros s l m Hs. exact Hs.
    - split; reflexivity. }
  exact (proj1 H).
Qed.

(** The store is left as it is when the model has no [dag_id] and the
    entry does not say so. *)
Lemma run_task_unpartitionable_store print enable (fault : storage) (params : db_object)
    (max_date : Z) (d : db) :
  partitionable params = false ->
  snd (run_task print enable fault params max_date d) = d.
Proof.
  intros Hpart. rewrite run_task_store. unfold partitionable in Hpart.
  apply orb_false_iff in Hpart. destruct Hpart as [Hscoped Hattr].
  erewrite cleanup_function_Raise.
  2:{ unfold cleanup_body. rewrite Hscoped, Hattr.
      erewrite bind_Raise; [reflexivity|].
      erewrite bind_Raise; reflexivity. }
  reflexivity.
Qed.

(** The store a task leaves when the deletion switch is on and the
    storage layer does not fail, in every case. *)
Lemma run_task_enabled_total print (params : db_object) (max_date : Z) (d : db) :
  keyed_on_execution_date params ->
  snd (run_task print true no_fault params max_date d) =
  if partitionable params
     && bool_decide (missing_table d (query_tables (query_of params max_date)) = None)
  then delete_rows d (query_of params max_date)
  else d.
Proof.
  intros Hkeyed.
  destruct (partitionable params) eqn:Hpart; simpl.
  - case_bool_decide as Hm.
    + now apply run_task_enabled_global.
    + now apply run_task_missing_store.
  - now apply run_task_unpartitionable_store.
Qed.

(** A [DELETE] on another table than the run table, or for a category
    without keep-last, does not change what the query of a category
    selects. *)
Lemma matches_other_table (d : db) (params : db_object) (max_date : Z) (q : query) (r : row) :
  (keep_last params = true -> q_entity q <> DagRun) ->
  matches (delete_rows d q) (query_of params max_date) r
  = matches d (query_of params max_date) r.
Proof.
  intros Hother. destruct (keep_last params) eqn:Hk.
  2:{ now rewrite !matches_no_keep_last. }
  rewrite !matches_keep_last by exact Hk. f_equal. f_equal. f_equal.
  unfold eval_subquery, protected_runs. simpl.
  rewrite table_delete_rows. rewrite decide_False; [reflexivity|].
  intros E. apply Hother; auto.
Qed.

Lemma delete_rows_commute (d : db) (p1 p2 : db_object) (max_date : Z) :
  airflow_db_model p1 <> airflow_db_model p2 ->
  (keep_last p1 = true -> airflow_db_model p2 <> DagRun) ->
  (keep_last p2 = true -> airflow_db_model p1 <> DagRun) ->
  delete_rows (delete_rows d (query_of p1 max_date)) (query_of p2 max_date)
  = delete_rows (delete_rows d (query_of p2 max_date)) (query_of p1 max_date).
Proof.
  intros Hne H1 H2.
  assert (Ht : tablename (airflow_db_model p1) <> tablename (airflow_db_model p2))
    by (intros E; apply Hne; now apply tablename_inj).
  unfold delete_rows at 1 3. rewrite !query_of_entity.
  rewrite !delete_rows_lookup_ne by (rewrite query_of_entity; auto).
  unfold delete_rows. rewrite !query_of_entity.
  destruct (d !! tablename (airflow_db_model p1)) as [rows1|] eqn:E1,
           (d !! tablename (airflow_db_model p2)) as [rows2|] eqn:E2;
    try reflexivity.
  - rewrite insert_insert_ne by auto. f_equal.
    + apply List.filter_ext. intros r. f_equal.
      pose proof (matches_other_table d p1 max_date (query_of p2 max_date) r) as Hs.
      unfold delete_rows in Hs. rewrite query_of_entity, E2 in Hs.
      rewrite Hs by assumption. reflexivity.
    + f_equal. apply List.filter_ext. intros r. f_equal.
      pose proof (matches_other_table d p2 max_date (query_of p1 max_date) r) as Hs.
      unfold delete_rows in Hs. rewrite query_of_entity, E1 in Hs.
      rewrite Hs by assumption. reflexivity.
Qed.

(** The cleanup tasks of two categories can run in either order: with
    the deletion switch on and no failure of the storage layer, the store
    after both tasks is the same, provided the two categories are on
    different tables and a keep-last category is not paired with the
    category of the run table it reads.  Every two entries of
    [DATABASE_OBJECTS] are such categories. *)
Theorem cleanup_tasks_commute (print1 print2 : bool) (p1 p2 : db_object)
    (max_date : Z) (d : db) :
  keyed_on_execution_date p1 ->
  keyed_on_execution_date p2 ->
  airflow_db_model p1 <> airflow_db_model p2 ->
  (keep_last p1 = true -> airflow_db_model p2 <> DagRun) ->
  (keep_last p2 = true -> airflow_db_model p1 <> DagRun) ->
  snd (run_task print2 true no_fault p2 max_date
         (snd (run_task print1 true no_fault p1 max_date d)))
  = snd (run_task print1 true no_fault p1 max_date
           (snd (run_task print2 true no_fault p2 max_date d))).
Proof.
  intros Hk1 Hk2 Hne H1 H2.
  rewrite !run_task_enabled_total by assumption.
  destruct (bool_decide (missing_table d (query_tables (query_of p1 max_date)) = None))
    eqn:C1;
  destruct (bool_decide (missing_table d (query_tables (query_of p2 max_date)) = None))
    eqn:C2;
  destruct (partitionable p1), (partitionable p2); cbn [andb];
    rewrite ?C1, ?C2; cbn [andb];
    rewrite ?missing_table_delete_rows, ?C1, ?C2; try reflexivity.
  now apply delete_rows_commute.
Qed.

Lemma cleanup_tasks_commute_witness :
  snd (run_task false true no_fault jobs 100
         (snd (run_task false true no_fault logs 100 store_jobs)))
  = snd (run_task false true no_fault logs 100
           (snd (run_task false true no_fault jobs 100 store_jobs))) /\
  snd (run_task false true no_fault jobs 100
         (snd (run_task false true no_fault logs 100 store_jobs)))
  = <["job" := [job_row (Some "X") (VTime 500); job_row None VNull]]>
      (<["log" := []]> ∅).
Proof.
  split; [|reflexivity].
  apply (cleanup_tasks_commute false false logs jobs 100 store_jobs);
    try discriminate; intros Hk; discriminate.
Defined.

Lemma DATABASE_OBJECTS_independent (p1 p2 : db_object) :
  In p1 DATABASE_OBJECTS -> In p2 DATABASE_OBJECTS -> p1 <> p2 ->
  airflow_db_model p1 <> airflow_db_model p2 /\
  (keep_last p1 = true -> airflow_db_model p2 <> DagRun) /\
  (keep_last p2 = true -> airflow_db_model p1 <> DagRun).
Proof.
  simpl. intros Hp1 Hp2 Hne.
  repeat (destruct Hp1 as [<-|Hp1]; [|]); try (destruct Hp1);
    repeat (destruct Hp2 as [<-|Hp2]; [|]); try (destruct Hp2);
    try (exfalso; apply Hne; reflexivity);
    simpl; repeat split; intros; discriminate.
Qed.

End OrderFacts.

Module PartitionFacts.
Import Store Maintenance Retention Examples IdempotenceFacts RunFacts.

(** No row is left out by the enumeration of the partitions: every row
    of the table belongs to a partition that the task walks through, for
    rows with an owner and for rows without one. *)
Theorem every_row_in_a_partition (d : db) (m : model) (r : row) :
  r ∈ table d m ->
  exists dag, dag ∈ partitions d m /\ in_partition m dag r = true.
Proof.
  intros Hr. exists (row_dag_id r). split.
  - now apply partitions_cover.
  - now apply in_partition_spec.
Qed.

Lemma every_row_in_a_partition_witness :
  exists dag, dag ∈ partitions store_owners Log /\
              in_partition Log dag (log_row None 7) = true.
Proof.
  apply every_row_in_a_partition.
  apply list_elem_of_In. right. right. left. reflexivity.
Defined.

Lemma partitions_all_owned_witness :
  partitions store_tied_runs DagRun = [Some "X"; Some "Y"; None].
Proof.
  refine (eq_trans (partitions_all_owned store_tied_runs DagRun _) eq_refl).
  intros r Hr. apply list_elem_of_In in Hr.
  destruct Hr as [<-|[<-|[<-|[]]]]; discriminate.
Defined.

End PartitionFacts.
